(** * nds-mcp: the EXFOR normalisation library and build driver

    A shallow embedding of [scripts/exfor_x4i3_common.py] and of the
    driver [scripts/build-exfor-from-x4i3.py], with the properties of
    the natural-language specification stated and proved over it.

    Conventions of the embedding.
    - Python [str] is a Rocq [string]; the characters are read as ASCII
      code points (EXFOR is an ASCII exchange format).
    - Python [float] is IEEE-754 binary64, given by the Standard
      Library's executable specification [spec_float] with [prec = 53]
      and [emax = 1024]; every operation rounds to nearest, ties to even.
    - Python [int] is [Z]; list positions are [nat].
    - [None] is [None] of an option type.
    - A raised exception is the [Raise] case of [result]. *)

From Stdlib Require Import ZArith List String Ascii Bool Lia Sorted.
From Stdlib Require Import Floats.SpecFloat DecimalString.
From stdpp Require Import base gmap strings list.

#[local] Set Warnings "-clear-no-such-hyp".

Open Scope string_scope.
Open Scope Z_scope.

(* ===================================================================== *)
(** ** Text: the part of Python's [str] the scripts use                   *)
(* ===================================================================== *)

Module PyText.

Definition code (c : ascii) : Z := Z.of_nat (nat_of_ascii c).

(** [str.isspace] on ASCII: tab, LF, VT, FF, CR, the four separators
    0x1c..0x1f and the space. *)
Definition is_space (c : ascii) : bool :=
  let n := code c in
  ((9 <=? n) && (n <=? 13)) || ((28 <=? n) && (n <=? 32)).

Definition is_digit (c : ascii) : bool :=
  let n := code c in (48 <=? n) && (n <=? 57).

(** the class [[A-Z]] *)
Definition is_AZ (c : ascii) : bool :=
  let n := code c in (65 <=? n) && (n <=? 90).

Definition is_az (c : ascii) : bool :=
  let n := code c in (97 <=? n) && (n <=? 122).

Definition upper_char (c : ascii) : ascii :=
  if is_az c then ascii_of_nat (nat_of_ascii c - 32) else c.

Definition lower_char (c : ascii) : ascii :=
  if is_AZ c then ascii_of_nat (nat_of_ascii c + 32) else c.

Fixpoint map_chars (f : ascii -> ascii) (s : string) : string :=
  match s with
  | EmptyString => EmptyString
  | String c r => String (f c) (map_chars f r)
  end.

(** [s.upper()] and [s.lower()] *)
Definition upper : string -> string := map_chars upper_char.
Definition lower : string -> string := map_chars lower_char.

Fixpoint lstrip (s : string) : string :=
  match s with
  | String c r => if is_space c then lstrip r else s
  | EmptyString => EmptyString
  end.

Fixpoint rstrip (s : string) : string :=
  match s with
  | EmptyString => EmptyString
  | String c r =>
      match rstrip r with
      | EmptyString => if is_space c then EmptyString else String c EmptyString
      | r' => String c r'
      end
  end.

(** [s.strip()] *)
Definition strip (s : string) : string := rstrip (lstrip s).

(** [s.startswith(p)] *)
Fixpoint startswith (p s : string) : bool :=
  match p, s with
  | EmptyString, _ => true
  | String a p', String b s' => Ascii.eqb a b && startswith p' s'
  | String _ _, EmptyString => false
  end.

(** [needle in hay] for two strings *)
Fixpoint contains (needle hay : string) : bool :=
  startswith needle hay ||
  match hay with
  | EmptyString => false
  | String _ r => contains needle r
  end.

(** the longest prefix of [s] whose characters all satisfy [p], and the rest *)
Fixpoint span (p : ascii -> bool) (s : string) : string * string :=
  match s with
  | String c r =>
      if p c then let '(a, b) := span p r in (String c a, b) else (EmptyString, s)
  | EmptyString => (EmptyString, EmptyString)
  end.

(** as [span], but at most [n] characters: a greedy [{0,n}] *)
Fixpoint span_upto (n : nat) (p : ascii -> bool) (s : string) : string * string :=
  match n, s with
  | S n', String c r =>
      if p c then let '(a, b) := span_upto n' p r in (String c a, b) else (EmptyString, s)
  | _, _ => (EmptyString, s)
  end.

(** [s.split()]: the maximal runs of non-space characters *)
Fixpoint split_ws_aux (cur : string) (s : string) : list string :=
  match s with
  | EmptyString => if String.eqb cur "" then [] else [cur]
  | String c r =>
      if is_space c
      then (if String.eqb cur "" then split_ws_aux "" r else cur :: split_ws_aux "" r)
      else split_ws_aux (cur ++ String c "") r
  end.
Definition split_ws (s : string) : list string := split_ws_aux "" s.

(** the value of a string of decimal digits, most significant first:
    [int(s)] for such a string (the interpreter's bound on the number of
    digits that [int] reads, 4300 unless it is configured, is left out) *)
Fixpoint digits_value_acc (acc : Z) (s : string) : Z :=
  match s with
  | EmptyString => acc
  | String c r => digits_value_acc (10 * acc + (code c - 48)) r
  end.
Definition digits_value (s : string) : Z := digits_value_acc 0 s.

Definition all_chars (p : ascii -> bool) (s : string) : bool :=
  forallb p (list_ascii_of_string s).

End PyText.

(* ===================================================================== *)
(** ** Floats: binary64 and Python's conversions to it                    *)
(* ===================================================================== *)

Module Binary64.

Definition prec : Z := 53.
Definition emax : Z := 1024.

Abbreviation float := spec_float.

Definition mul : float -> float -> float := SFmul prec emax.
Definition add : float -> float -> float := SFadd prec emax.
Definition div : float -> float -> float := SFdiv prec emax.
Definition fabs : float -> float := SFabs.

(** [math.isnan], [math.isinf] *)
Definition isnan (x : float) : bool :=
  match x with S754_nan => true | _ => false end.
Definition isinf (x : float) : bool :=
  match x with S754_infinity _ => true | _ => false end.
Definition is_finite (x : float) : bool := negb (isnan x) && negb (isinf x).

(** [0.0 <= x] *)
Definition nonneg (x : float) : bool := SFleb (S754_zero false) x.

(** The binary64 nearest to [(-1)^s * m * 10^e] for [0 <= m]: how a
    decimal literal of the source and a decimal string given to
    [float()] are read. For [e < 0] the quotient of the two integers is
    rounded once. *)
Definition of_decimal (s : bool) (m : Z) (e : Z) : float :=
  if 0 <=? e
  then binary_normalize prec emax (cond_Zopp s (m * 10 ^ e)) 0 s
  else match m with
       | Zpos p => div (S754_finite s p 0) (S754_finite false (Z.to_pos (10 ^ (- e))) 0)
       | _ => S754_zero s
       end.

(** The literals of the source. *)
Definition f_1_0 : float := Eval vm_compute in of_decimal false 1 0.        (* 1.0 *)
Definition f_2_0 : float := Eval vm_compute in of_decimal false 2 0.        (* 2.0 *)
Definition f_1e3 : float := Eval vm_compute in of_decimal false 1 3.        (* 1e3 *)
Definition f_1e6 : float := Eval vm_compute in of_decimal false 1 6.        (* 1e6 *)
Definition f_1e9 : float := Eval vm_compute in of_decimal false 1 9.        (* 1e9 *)
Definition f_1em3 : float := Eval vm_compute in of_decimal false 1 (-3).    (* 1e-3 *)
Definition f_1em6 : float := Eval vm_compute in of_decimal false 1 (-6).    (* 1e-6 *)
Definition f_1em9 : float := Eval vm_compute in of_decimal false 1 (-9).    (* 1e-9 *)
Definition k_B_eV : float :=
  Eval vm_compute in of_decimal false 8617333262 (-14).                     (* 8.617333262e-5 *)
Definition k_B_keV : float :=
  Eval vm_compute in of_decimal false 8617333262 (-17).                     (* 8.617333262e-8 *)

End Binary64.

(* ===================================================================== *)
(** ** Python values, exceptions, and the built-ins [float] and [int]     *)
(* ===================================================================== *)

Import PyText Binary64.

(** The exceptions that occur: [float()] of an [int] out of range, a
    primary key inserted twice, a file that is no SQLite store, and the
    process being killed or interrupted. *)
Inductive exn := OverflowError | IntegrityError | DatabaseError | Interrupted.

Inductive result (A : Type) : Type :=
| Ok (a : A)
| Raise (e : exn).
Arguments Ok {A} a.
Arguments Raise {A} e.

#[global] Instance result_bind : MBind result := λ A B k r,
  match r with
  | Ok a => k a
  | Raise e => Raise e
  end.
#[global] Instance result_ret : MRet result := @Ok.

(** A cell of a data row. Any object that is neither [None] nor a number
    reaches the code only through [str(value)], so it is given by that
    text. [bool] is a subclass of [int]. *)
Inductive pyval :=
| PyNone
| PyBool (b : bool)
| PyInt (z : Z)
| PyFloat (x : float)
| PyStr (text : string).

(** [float(z)] for an [int]: the nearest binary64, and [OverflowError]
    when that is out of range. *)
Definition float_of_int (z : Z) : result float :=
  match binary_normalize prec emax z 0 false with
  | S754_infinity _ => Raise OverflowError
  | x => Ok x
  end.

Definition NUL : ascii := "000"%char.
Definition LF : ascii := "010"%char.

(** [float(text)] accepts an underscore only between two digits. *)
Fixpoint underscores_ok (prev : ascii) (s : string) : bool :=
  match s with
  | EmptyString => negb (Ascii.eqb prev "_")
  | String c r =>
      (if Ascii.eqb c "_" then is_digit prev
       else negb (Ascii.eqb prev "_") || is_digit c)
      && underscores_ok c r
  end.

Fixpoint drop_underscores (s : string) : string :=
  match s with
  | EmptyString => EmptyString
  | String c r => if Ascii.eqb c "_" then drop_underscores r else String c (drop_underscores r)
  end.

Definition parse_sign (s : string) : bool * string :=
  match s with
  | String "-" r => (true, r)
  | String "+" r => (false, r)
  | _ => (false, s)
  end.

(** The grammar of [float(text)] after the underscores are gone:
    [[sign] ("inf" | "infinity" | "nan")] in any case, or
    [[sign] (digits ["." [digits]] | "." digits) [("e"|"E") [sign] digits]]. *)
Definition float_literal (s : string) : option float :=
  let '(neg, r) := parse_sign s in
  let lr := lower r in
  if String.eqb lr "inf" || String.eqb lr "infinity" then Some (S754_infinity neg)
  else if String.eqb lr "nan" then Some S754_nan
  else
    let '(ip, r1) := span is_digit r in
    let '(fp, r2) := match r1 with
                     | String "." r' => span is_digit r'
                     | _ => (EmptyString, r1)
                     end in
    if String.eqb ip "" && String.eqb fp "" then None
    else
      let m := digits_value (ip ++ fp) in
      let scale := Z.of_nat (String.length fp) in
      match r2 with
      | EmptyString => Some (of_decimal neg m (- scale))
      | String c r3 =>
          if Ascii.eqb c "e" || Ascii.eqb c "E" then
            let '(eneg, r4) := parse_sign r3 in
            let '(ed, r5) := span is_digit r4 in
            if String.eqb ed "" || negb (String.eqb r5 "") then None
            else Some (of_decimal neg m (cond_Zopp eneg (digits_value ed) - scale))
          else None
      end.

(** [float(text)] for a [str]: [None] stands for [ValueError]. *)
Definition float_of_str (text : string) : option float :=
  let t := strip text in
  if underscores_ok NUL t then float_literal (drop_underscores t) else None.

(* ===================================================================== *)
(** ** exfor_x4i3_common.py                                               *)
(* ===================================================================== *)

Definition PROJECTILE_MAP : gmap string string :=
  list_to_map [("N", "n"); ("P", "p"); ("G", "g"); ("D", "d"); ("A", "a"); ("HE3", "h"); ("H", "h")].

Definition SUPPORTED_Q : gset string :=
  list_to_set ["SIG"; "DA"; "DE"; "FY"; "MACS"].

Definition ELEMENTS : list string :=
  split_ws
    ("H HE LI BE B C N O F NE NA MG AL SI P S CL AR K CA SC TI V CR MN FE CO NI CU ZN " ++
     "GA GE AS SE BR KR RB SR Y ZR NB MO TC RU RH PD AG CD IN SN SB TE I XE CS BA LA CE " ++
     "PR ND PM SM EU GD TB DY HO ER TM YB LU HF TA W RE OS IR PT AU HG TL PB BI PO AT RN " ++
     "FR RA AC TH PA U NP PU AM CM BK CF ES FM MD NO LR RF DB SG BH HS MT DS RG CN NH FL " ++
     "MC LV TS OG").

(** [enumerate(l, start)] *)
Fixpoint enumerate {A} (start : Z) (l : list A) : list (Z * A) :=
  match l with
  | [] => []
  | x :: r => (start, x) :: enumerate (start + 1) r
  end.

(** [{symbol: index + 1 for index, symbol in enumerate(ELEMENTS)}] *)
Definition SYMBOL_TO_Z : gmap string Z :=
  fold_left (fun m '(index, symbol) => <[symbol := index + 1]> m) (enumerate 0 ELEMENTS) ∅.

#[global] Arguments ELEMENTS : simpl never.
#[global] Arguments SYMBOL_TO_Z : simpl never.

(** [$] without MULTILINE: the end of the string, or just before a
    newline that ends it. *)
Definition at_dollar (s : string) : bool :=
  String.eqb s "" || String.eqb s (String LF "").

(** [re.match] of the pattern [^([A-Z]{1,3})-(\d+)(?:-M(\d{0,})?)?$] on [s]
    (the source writes the last repetition with a star): the three groups
    of a match. Each repetition is followed by a character outside its
    class, so the greedy choice is the only one that can match. *)
Definition target_re (s : string) : option (string * string * option string) :=
  let '(symbol, r1) := span_upto 3 is_AZ s in
  if String.eqb symbol "" then None
  else match r1 with
       | String "-" r2 =>
           let '(mass, r3) := span is_digit r2 in
           if String.eqb mass "" then None
           else match r3 with
                | String "-" (String "M" r4) =>
                    let '(meta_state, r5) := span is_digit r4 in
                    if at_dollar r5 then Some (symbol, mass, Some meta_state) else None
                | _ => if at_dollar r3 then Some (symbol, mass, None) else None
                end
       | _ => None
       end.

(** line 24: [int(meta_state) if meta_state else (1 if meta_state is not None else 0)] *)
Definition isomer_state (meta_state : option string) : Z :=
  match meta_state with
  | Some "" => 1
  | Some digits => digits_value digits
  | None => 0
  end.

Definition parse_target (target : option string) : option (Z * Z * Z) :=
  match target_re (default "" target) with
  | None => None
  | Some (symbol, mass, meta_state) =>
      match SYMBOL_TO_Z !! symbol with
      | None => None
      | Some z => Some (z, digits_value mass, isomer_state meta_state)
      end
  end.

(** the test of lines 41-43: a NaN or an infinity becomes [None] *)
Definition finite_or_none (number : float) : option float :=
  if isnan number || isinf number then None else Some number.

Definition to_num (value : pyval) : result (option float) :=
  match value with
  | PyNone => Ok None
  | PyBool b => number ← float_of_int (if b then 1 else 0); Ok (finite_or_none number)
  | PyInt z => number ← float_of_int z; Ok (finite_or_none number)
  | PyFloat x => Ok (finite_or_none x)
  | PyStr s =>
      let text := strip s in
      if String.eqb text "" || String.eqb text "-" || String.eqb text "NA" || String.eqb text "N/A"
      then Ok None
      else match float_of_str text with
           | None => Ok None
           | Some number => Ok (finite_or_none number)
           end
  end.

(** [(unit or '').upper().strip()] *)
Definition norm_unit (unit : option string) : string :=
  strip (upper (default "" unit)).

Definition factors : gmap string float :=
  list_to_map [("EV", f_1_0); ("KEV", f_1e3); ("MEV", f_1e6); ("GEV", f_1e9);
               ("MILLI-EV", f_1em3); ("UEV", f_1em6); ("NEV", f_1em9)].

Definition energy_to_ev (value : option float) (unit : option string) : option float :=
  match value with
  | None => None
  | Some value =>
      let unit := norm_unit unit in
      match factors !! unit with
      | Some factor => Some (mul value factor)
      | None =>
          if String.eqb unit "K" then Some (mul value k_B_eV)
          else Some value
      end
  end.

Definition kt_to_kev (value : option float) (unit : option string) : option float :=
  match value with
  | None => None
  | Some value =>
      let unit := norm_unit unit in
      if String.eqb unit "KEV" then Some value
      else if String.eqb unit "EV" then Some (div value f_1e3)
      else if String.eqb unit "MEV" then Some (mul value f_1e3)
      else if String.eqb unit "GEV" then Some (mul value f_1e6)
      else if String.eqb unit "K" then Some (mul value k_B_keV)
      else Some value
  end.

(** [labels.index(x)] when [x in labels] *)
Fixpoint index_of (x : string) (labels : list string) : option nat :=
  match labels with
  | [] => None
  | y :: rest => if String.eqb x y then Some 0%nat else S <$> index_of x rest
  end.

Fixpoint find_index (labels : list string) (candidates : list string) : option nat :=
  match candidates with
  | [] => None
  | candidate :: rest =>
      match index_of candidate labels with
      | Some i => Some i
      | None => find_index labels rest
      end
  end.

(** A data row: a list or tuple of cells, or any other object. *)
Inductive pyrow :=
| RowSeq (cells : list pyval)
| RowOther.

(** What [extract_points] reads of a dataset; an attribute that is
    missing is the empty list. A label or unit is [None] or is given by
    its [str()]. *)
Record dataset := {
  ds_labels : list (option string);
  ds_units : list (option string);
  ds_data : list pyrow
}.

Record point := {
  point_index : Z;
  energy_ev : option float;
  kt_kev : option float;
  value : float;
  uncertainty : option float
}.

(** [[str(item).upper() if item is not None else '' for item in items]] *)
Definition upper_items (items : list (option string)) : list string :=
  map (fun item => match item with Some s => upper s | None => "" end) items.

Definition energy_labels : gset string :=
  list_to_set ["EN"; "ENERGY"; "EN-LAB"; "EN-CM"; "EN-RSL"; "KT"; "KT-K"].

(** the test of line 92 *)
Definition not_a_value_label (label : string) : bool :=
  contains "ERR" label || startswith "D(" label || bool_decide (label ∈ energy_labels).

(** the loop of lines 91-95, from position [index] on *)
Fixpoint first_value_label (index : nat) (labels : list string) : option nat :=
  match labels with
  | [] => None
  | label :: rest =>
      if not_a_value_label label then first_value_label (S index) rest
      else Some index
  end.

(** lines 88-95: the column of the measured value *)
Definition resolve_data_index (labels : list string) : option nat :=
  match find_index labels ["DATA"] with
  | Some i => Some i
  | None => first_value_label 0 labels
  end.

(** [l[:stop]] *)
Definition slice_to {A} (l : list A) (stop : Z) : list A :=
  if 0 <=? stop then take (Z.to_nat stop) l
  else take (length l - Z.to_nat (- stop)) l.

(** [row[index]] under the guard [index is not None and index < len(row)] *)
Definition cell_at (row : list pyval) (index : option nat) : option pyval :=
  i ← index; row !! i.

(** [units[index] if index < len(units) else ''] *)
Definition unit_at (units : list string) (index : nat) : string :=
  default "" (units !! index).

Section ExtractRows.
Variables (units : list string) (quantity : string) (data_index : nat).
Variables (energy_index kt_index err_index err_plus err_minus : option nat).

(** line 109 *)
Definition row_value (row : list pyval) : result (option float) :=
  match row !! data_index with
  | Some cell => to_num cell
  | None => Ok None
  end.

(** lines 112-117: the pair [(energy_ev, kt_kev)] *)
Definition row_energy_kt (row : list pyval) : result (option float * option float) :=
  if String.eqb quantity "MACS" then
    match kt_index, cell_at row kt_index with
    | Some k, Some cell =>
        t ← to_num cell; Ok (None, kt_to_kev t (Some (unit_at units k)))
    | _, _ => Ok (None, None)
    end
  else
    match energy_index, cell_at row energy_index with
    | Some k, Some cell =>
        e ← to_num cell; Ok (energy_to_ev e (Some (unit_at units k)), None)
    | _, _ => Ok (None, None)
    end.

(** lines 118-126 *)
Definition row_uncertainty (row : list pyval) : result (option float) :=
  match cell_at row err_index with
  | Some cell =>
      err_value ← to_num cell;
      Ok (match err_value with
          | Some err_value => Some (fabs err_value)
          | None => None
          end)
  | None =>
      match cell_at row err_plus, cell_at row err_minus with
      | Some cplus, Some cminus =>
          plus ← to_num cplus;
          minus ← to_num cminus;
          Ok (match plus, minus with
              | Some plus, Some minus => Some (div (add (fabs plus) (fabs minus)) f_2_0)
              | _, _ => None
              end)
      | _, _ => Ok None
      end
  end.

(** The body of the loop of lines 106-127: [None] where the source
    continues with the next row. *)
Definition extract_row (point_index : Z) (row : pyrow) : result (option point) :=
  match row with
  | RowOther => Ok None
  | RowSeq row =>
      value ← row_value row;
      match value with
      | None => Ok None
      | Some value =>
          '(energy_ev, kt_kev) ← row_energy_kt row;
          uncertainty ← row_uncertainty row;
          Ok (Some {| point_index := point_index; energy_ev := energy_ev;
                      kt_kev := kt_kev; value := value; uncertainty := uncertainty |})
      end
  end.

(** The loop itself: the points of the rows in order; the first row
    that raises ends the call. *)
Fixpoint extract_rows (rows : list (Z * pyrow)) : result (list point) :=
  match rows with
  | [] => Ok []
  | (point_index, row) :: rest =>
      p ← extract_row point_index row;
      points ← extract_rows rest;
      Ok (match p with Some p => p :: points | None => points end)
  end.
End ExtractRows.

Definition extract_points (ds : dataset) (quantity : string) (max_points : Z)
  : result (list point) :=
  let labels := upper_items (ds_labels ds) in
  let units := upper_items (ds_units ds) in
  match labels with
  | [] => Ok []
  | _ =>
      match resolve_data_index labels with
      | None => Ok []
      | Some data_index =>
          let energy_index := find_index labels ["EN"; "ENERGY"; "EN-LAB"; "EN-CM"; "EN-RSL"; "E"] in
          let kt_index := find_index labels ["KT"; "KT-K"; "K-T"] in
          let err_index := find_index labels ["DATA-ERR"; "D(DATA)"; "ERR"; "ERR-T"; "STAT-W G"] in
          let err_plus := find_index labels ["+DATA-ERR"] in
          let err_minus := find_index labels ["-DATA-ERR"] in
          extract_rows units quantity data_index energy_index kt_index err_index err_plus err_minus
            (enumerate 0 (slice_to (ds_data ds) max_points))
      end
  end.

(* ===================================================================== *)
(** ** build-exfor-from-x4i3.py                                           *)
(* ===================================================================== *)

Module Build.

(** *** The output store *)

Record entry_row := {
  entry_id : string;
  subentry_id : string;
  target_Z : Z;
  target_A : Z;
  state : Z;
  projectile : string;
  reaction : option string;
  quantity : string;
  reference : option string;
  year : option Z
}.

Record point_row := {
  p_entry_id : string;
  p_subentry_id : string;
  p_point : point
}.

(** The three tables; a table is the list of its rows in the order of
    insertion. *)
Record store := {
  exfor_meta : gmap string string;
  exfor_entries : list entry_row;
  exfor_points : list point_row
}.

Definition empty_store : store :=
  {| exfor_meta := ∅; exfor_entries := []; exfor_points := [] |}.

Definition entry_key (e : entry_row) : string * string := (entry_id e, subentry_id e).

(** [INSERT INTO exfor_entries ...] under [PRIMARY KEY(entry_id, subentry_id)] *)
Definition insert_entry (e : entry_row) (s : store) : result store :=
  if bool_decide (entry_key e ∈ map entry_key (exfor_entries s))
  then Raise IntegrityError
  else Ok {| exfor_meta := exfor_meta s;
             exfor_entries := exfor_entries s ++ [e];
             exfor_points := exfor_points s |}.

(** [executemany("INSERT INTO exfor_points ...", rows)] *)
Definition insert_points (rows : list point_row) (s : store) : result store :=
  Ok {| exfor_meta := exfor_meta s;
        exfor_entries := exfor_entries s;
        exfor_points := exfor_points s ++ rows |}.

(** [INSERT OR REPLACE INTO exfor_meta(key, value) ...] *)
Definition put_meta (k v : string) (s : store) : result store :=
  Ok {| exfor_meta := <[k := v]> (exfor_meta s);
        exfor_entries := exfor_entries s;
        exfor_points := exfor_points s |}.

(** *** The process and the file system

    A file holds a store, or is one of SQLite's side files. The store
    at a path stands for the main file together with its write-ahead
    log. [steps_left] is the number of effects the process still
    executes before it is killed: every effect on the file system
    first takes one step and raises [Interrupted] when none is left. *)
Inductive file := StoreFile (s : store) | SideFile.

Record run_state := {
  files : gmap string file;
  written_entries : gset (string * string);
  stats : gmap string Z;
  steps_left : nat
}.

Definition M (A : Type) : Type := run_state -> run_state * result A.

#[global] Instance M_ret : MRet M := λ A a st, (st, Ok a).
#[global] Instance M_bind : MBind M := λ A B k m st,
  match m st with
  | (st', Ok a) => k a st'
  | (st', Raise e) => (st', Raise e)
  end.

Definition raise {A} (e : exn) : M A := λ st, (st, Raise e).

Definition lift {A} (r : result A) : M A := λ st, (st, r).

Definition with_files (f : gmap string file -> gmap string file) (st : run_state) : run_state :=
  {| files := f (files st); written_entries := written_entries st;
     stats := stats st; steps_left := steps_left st |}.

Definition get_file (path : string) : M (option file) := λ st,
  (st, Ok (files st !! path)).

Definition set_files (f : gmap string file -> gmap string file) : M unit := λ st,
  (with_files f st, Ok ()).

(** one effect: it happens only while the process is alive *)
Definition tick : M unit := λ st,
  match steps_left st with
  | O => (st, Raise Interrupted)
  | S n => ({| files := files st; written_entries := written_entries st;
               stats := stats st; steps_left := n |}, Ok ())
  end.

Definition wal (path : string) : string := path ++ "-wal".
Definition shm (path : string) : string := path ++ "-shm".

(** [sqlite3.connect(path)]: the file is created when it is absent *)
Definition connect (path : string) : M unit :=
  _ ← tick;
  f ← get_file path;
  match f with
  | None => set_files (insert path (StoreFile empty_store))
  | Some _ => mret ()
  end.

(** A statement on the connection to [path]. In WAL mode the side
    files appear next to the store. *)
Definition db_exec (path : string) (stmt : store -> result store) : M unit :=
  _ ← tick;
  f ← get_file path;
  match f with
  | Some (StoreFile s) =>
      s' ← lift (stmt s);
      set_files (λ fs, <[shm path := SideFile]>
                         (<[wal path := SideFile]> (<[path := StoreFile s']> fs)))
  | _ => raise DatabaseError
  end.

(** [commit()] *)
Definition db_commit (path : string) : M unit := db_exec path Ok.

(** [close()]: the log is folded into the store and the side files go *)
Definition db_close (path : string) : M unit :=
  _ ← tick;
  set_files (λ fs, delete (shm path) (delete (wal path) fs)).

(** [os.replace(src, dst)]: one atomic step *)
Definition os_replace (src dst : string) : M unit :=
  _ ← tick;
  f ← get_file src;
  match f with
  | Some f => set_files (λ fs, <[dst := f]> (delete src fs))
  | None => raise DatabaseError
  end.

(** [stats[name] += n] on a [defaultdict(int)] *)
Definition bump (name : string) (n : Z) : M unit := λ st,
  ({| files := files st; written_entries := written_entries st;
      stats := <[name := default 0 (stats st !! name) + n]> (stats st);
      steps_left := steps_left st |}, Ok ()).

Definition is_written (k : string * string) : M bool := λ st,
  (st, Ok (bool_decide (k ∈ written_entries st))).

Definition mark_written (k : string * string) : M unit := λ st,
  ({| files := files st; written_entries := {[k]} ∪ written_entries st;
      stats := stats st; steps_left := steps_left st |}, Ok ()).

(** lines 68-69: [written_entries = set()], [stats = defaultdict(int)] *)
Definition init_locals : M unit := λ st,
  ({| files := files st; written_entries := ∅; stats := ∅;
      steps_left := steps_left st |}, Ok ()).

Fixpoint for_each {A} (body : A -> M unit) (l : list A) : M unit :=
  match l with
  | [] => mret ()
  | x :: rest => _ ← body x; for_each body rest
  end.

(** *** The index and the record loader *)

(** A row of the query on the index:
    [entry, subent, pointer, target, projectile, reaction, quantity, author]. *)
Record index_row := {
  ix_entry : string;
  ix_subent : string;
  ix_pointer : option string;
  ix_target : option string;
  ix_projectile : string;
  ix_reaction : option string;
  ix_quantity : string;
  ix_author : option string
}.

Definition dataset_key : Type := string * string * string.

(** What lines 78-85 get from the loader: an exception, no entry, or
    the dict of [getSimplifiedDataSets], in the order of its keys. *)
Inductive loaded :=
| LoadFailed
| NotFound
| Datasets (dataset_map : list (dataset_key * dataset)).

(** [dataset_map.get(key)] *)
Definition dict_get (dataset_map : list (dataset_key * dataset)) (key : dataset_key)
  : option dataset :=
  snd <$> List.find (λ kv, bool_decide (kv.1 = key)) dataset_map.

(** lines 86-88 *)
Definition by_subent (dataset_map : list (dataset_key * dataset))
  : gmap string (list dataset_key) :=
  fold_left (λ m key, <[key.1.2 := (default [] (m !! key.1.2) ++ [key])%list]> m)
            (map fst dataset_map) ∅.

(** line 99: [(pointer or ' ').strip() or ' '] *)
Definition norm_pointer (pointer : option string) : string :=
  let p := match pointer with
           | Some s => if String.eqb s "" then " " else s
           | None => " "
           end in
  let p := strip p in
  if String.eqb p "" then " " else p.

(** line 111 *)
Definition derived_subentry_id (subent pointer : string) : string :=
  if String.eqb pointer " " then subent else subent ++ ":" ++ pointer.

(** [str(n)] for an [int] *)
Definition str_of_int (n : Z) : string := NilZero.string_of_int (Z.to_int n).

Record args := {
  index : string;
  output : string;
  limit : Z;
  max_points_per_dataset : Z
}.

(** How a row of the index ends at lines 90-112: a counter is bumped
    and the row is dropped, or it resolves to an entry record and its
    points. *)
Inductive row_outcome :=
| Skip (counter : string)
| Resolved (e : entry_row) (points : list point).

Section Driver.
(** The collaborators: the loader, the rows the query yields without
    its LIMIT, and the clock. *)
Variable retrieve : option string -> loaded.
Variable candidates : list index_row.
Variable now : string.
Variable a : args.

Definition tmp_output : string := output a ++ ".tmp.build".

(** lines 100-103 *)
Definition find_dataset (dataset_map : list (dataset_key * dataset))
    (key : dataset_key) (subent : string) : option dataset :=
  match dict_get dataset_map key with
  | Some dataset => Some dataset
  | None =>
      match by_subent dataset_map !! subent with
      | Some (first :: _) => dict_get dataset_map first
      | _ => None
      end
  end.

(** lines 90-112 and 115 *)
Definition resolve_row (dataset_map : list (dataset_key * dataset)) (row : index_row)
  : result row_outcome :=
  match parse_target (ix_target row) with
  | None => Ok (Skip "skipped_non_nuclide_or_quantity")
  | Some (z, a_, state_) =>
      if negb (bool_decide (ix_quantity row ∈ SUPPORTED_Q))
      then Ok (Skip "skipped_non_nuclide_or_quantity")
      else
        match PROJECTILE_MAP !! ix_projectile row with
        | None => Ok (Skip "skipped_projectile")
        | Some projectile_ =>
            let pointer := norm_pointer (ix_pointer row) in
            let key := (ix_entry row, ix_subent row, pointer) in
            match find_dataset dataset_map key (ix_subent row) with
            | None => Ok (Skip "missing_dataset")
            | Some dataset =>
                points ← extract_points dataset (ix_quantity row) (max_points_per_dataset a);
                match points with
                | [] => Ok (Skip "empty_points")
                | _ =>
                    Ok (Resolved
                          {| entry_id := ix_entry row;
                             subentry_id := derived_subentry_id (ix_subent row) pointer;
                             target_Z := z; target_A := a_; state := state_;
                             projectile := projectile_;
                             reaction := ix_reaction row;
                             quantity := ix_quantity row;
                             reference := ix_author row;
                             year := None |}
                          points)
                end
            end
        end
  end.

Definition point_rows (e : entry_row) (points : list point) : list point_row :=
  map (λ p, {| p_entry_id := entry_id e; p_subentry_id := subentry_id e; p_point := p |})
      points.

(** the body of the loop of lines 89-127 *)
Definition process_row (dataset_map : list (dataset_key * dataset)) (row : index_row)
  : M unit :=
  outcome ← lift (resolve_row dataset_map row);
  match outcome with
  | Skip counter => bump counter 1
  | Resolved e points =>
      seen ← is_written (entry_key e);
      if (seen : bool) then mret ()
      else
        _ ← db_exec tmp_output (insert_entry e);
        _ ← db_exec tmp_output (insert_points (point_rows e points));
        _ ← mark_written (entry_key e);
        _ ← bump "entries_inserted" 1;
        bump "points_inserted" (Z.of_nat (length points))
  end.

Definition flush_entry (entry : option string) (rows : list index_row) : M unit :=
  match rows with
  | [] => mret ()
  | _ =>
      match retrieve entry with
      | NotFound => bump "missing_entries" 1
      | LoadFailed => bump "entry_load_errors" 1
      | Datasets dataset_map => for_each (process_row dataset_map) rows
      end
  end.

(** The loop of lines 129-140 from row number [row_index] on; the
    progress line that goes to the terminal is left out. *)
Fixpoint scan (current_entry : option string) (entry_rows : list index_row)
    (row_index : Z) (rows : list index_row) : M (option string * list index_row) :=
  match rows with
  | [] => mret (current_entry, entry_rows)
  | row :: rest =>
      let current_entry :=
        match current_entry with None => Some (ix_entry row) | Some _ => current_entry end in
      '(current_entry, entry_rows) ←
        (if bool_decide (Some (ix_entry row) ≠ current_entry)
         then _ ← flush_entry current_entry entry_rows;
              mret (Some (ix_entry row), [row])
         else mret (current_entry, (entry_rows ++ [row])%list));
      _ ← (if row_index mod 20000 =? 0 then db_commit tmp_output else mret ());
      scan current_entry entry_rows (row_index + 1) rest
  end.

(** the rows of the query, with its LIMIT *)
Definition query_rows : list index_row :=
  if 0 <? limit a then take (Z.to_nat (limit a)) candidates else candidates.

Definition source_text : string :=
  "x4i3 index.tbl " ++
  (if limit a =? 0 then "full" else "limit=" ++ str_of_int (limit a)).

Definition candidate_rows_text : string :=
  let total_candidates := Z.of_nat (length candidates) in
  str_of_int (if limit a =? 0 then total_candidates
              else Z.min (limit a) total_candidates).

(** lines 129-141: the loop and the last flush *)
Definition build_rows (rows : list index_row) : M unit :=
  '(current_entry, entry_rows) ← scan None [] 1 rows;
  flush_entry current_entry entry_rows.

(** [main] from line 33 to line 149: everything before the rename.
    The index is only read. The script of lines 35-65 sets the
    pragmas and creates the tables and indexes when they are
    missing: it leaves the rows of a store as they are. *)
Definition build_tmp : M unit :=
  _ ← connect tmp_output;
  _ ← db_exec tmp_output Ok;
  _ ← init_locals;
  _ ← build_rows query_rows;
  _ ← db_exec tmp_output (put_meta "schema_version" "1");
  _ ← db_exec tmp_output (put_meta "built_at" now);
  _ ← db_exec tmp_output (put_meta "source" source_text);
  _ ← db_exec tmp_output (put_meta "candidate_rows" candidate_rows_text);
  _ ← db_commit tmp_output;
  db_close tmp_output.

(** [main]: the build, then line 150 *)
Definition main : M unit :=
  _ ← build_tmp;
  os_replace tmp_output (output a).
End Driver.

End Build.

(* ===================================================================== *)
(** ** Notions of the specification                                       *)
(* ===================================================================== *)

Import Build.

(** [i] is the first position of [labels] whose label satisfies [P]. *)
Definition first_at (P : string -> bool) (labels : list string) (i : nat) : Prop :=
  (∃ label, labels !! i = Some label ∧ P label = true) ∧
  (∀ j label, (j < i)%nat -> labels !! j = Some label -> P label = false).




(** The rows that [extract_points] visits: [data[:max_points]]. *)
Definition visited_rows (ds : dataset) (max_points : Z) : list pyrow :=
  slice_to (ds_data ds) max_points.

(** The text forms [SYMBOL-MASS], [SYMBOL-MASS-M] and [SYMBOL-MASS-Mn]
    of a target, with the triple each stands for. *)
Definition digits (s : string) : Prop :=
  s ≠ "" ∧ all_chars is_digit s = true.

Inductive target_form : string -> Z * Z * Z -> Prop :=
| tf_ground i symbol mass :
    ELEMENTS !! i = Some symbol -> digits mass ->
    target_form (symbol ++ "-" ++ mass) (Z.of_nat i + 1, digits_value mass, 0)
| tf_isomer i symbol mass :
    ELEMENTS !! i = Some symbol -> digits mass ->
    target_form (symbol ++ "-" ++ mass ++ "-M") (Z.of_nat i + 1, digits_value mass, 1)
| tf_isomer_n i symbol mass n :
    ELEMENTS !! i = Some symbol -> digits mass -> digits n ->
    target_form (symbol ++ "-" ++ mass ++ "-M" ++ n)
                (Z.of_nat i + 1, digits_value mass, digits_value n).

(** What a row of the index resolves to, if to anything: the entry
    record with its derived subentry identifier, and the points. *)
Definition resolved_in (a : args) (dataset_map : list (dataset_key * dataset))
    (row : index_row) : option (entry_row * list point) :=
  match resolve_row a dataset_map row with
  | Ok (Resolved e points) => Some (e, points)
  | _ => None
  end.

Definition row_resolution (retrieve : option string -> loaded) (a : args)
    (row : index_row) : option (entry_row * list point) :=
  match retrieve (Some (ix_entry row)) with
  | Datasets dataset_map => resolved_in a dataset_map row
  | _ => None
  end.

(** The rows of point table that belong to resolved rows. *)
Definition all_point_rows (l : list (entry_row * list point)) : list point_row :=
  concat (map (λ ep, point_rows ep.1 ep.2) l).

(** First write wins: of the resolved rows, in order, those whose pair
    [(entry_id, subentry_id)] is neither in [seen] nor on an earlier row. *)
Fixpoint first_wins (seen : gset (string * string))
    (l : list (entry_row * list point)) : list (entry_row * list point) :=
  match l with
  | [] => []
  | (e, points) :: rest =>
      if bool_decide (entry_key e ∈ seen) then first_wins seen rest
      else (e, points) :: first_wins ({[entry_key e]} ∪ seen) rest
  end.

(** The store under construction. *)
Definition tmp_store (a : args) (st : run_state) : option store :=
  match files st !! tmp_output a with
  | Some (StoreFile s) => Some s
  | _ => None
  end.

(** The paths a build writes before it publishes. *)
Definition scratch_path (a : args) (path : string) : Prop :=
  path = tmp_output a ∨ path = wal (tmp_output a) ∨ path = shm (tmp_output a).

(** Two datasets to run the extractor on. The first has a row without
    a value between two rows with one. The second has all three error
    columns, and its combined error is blank in the first row. *)
Definition sample_dataset : dataset :=
  {| ds_labels := [Some "EN"; Some "DATA"; Some "DATA-ERR"];
     ds_units := [Some "MEV"; Some "B"; Some "B"];
     ds_data := [RowSeq [PyFloat f_1_0; PyStr "2.5"; PyStr "0.1"];
                 RowSeq [PyFloat f_2_0; PyNone; PyStr "0.1"];
                 RowSeq [PyFloat f_1e3; PyInt 3; PyStr "-0.2"]] |}.

Definition sample_dataset_errors : dataset :=
  {| ds_labels := [Some "KT"; Some "DATA"; Some "DATA-ERR"; Some "+DATA-ERR"; Some "-DATA-ERR"];
     ds_units := [Some "KEV"; Some "MB"; Some "MB"; Some "MB"; Some "MB"];
     ds_data := [RowSeq [PyInt 30; PyStr "2.5"; PyStr "-"; PyStr "0.3"; PyStr "0.1"];
                 RowSeq [PyInt 30; PyStr "2.5"; PyStr "0.2"; PyStr "0.3"; PyStr "0.1"]] |}.

(** A small index to run the driver on: two rows of one entry that
    resolve to the same pair, and a row of an entry that the loader does
    not find. *)
Definition sample_retrieve (entry : option string) : loaded :=
  match entry with
  | Some "10001" => Datasets [(("10001", "10001002", " "), sample_dataset)]
  | _ => NotFound
  end.

Definition sample_row (entry subent : string) (pointer : option string)
    (reaction author : string) : index_row :=
  {| ix_entry := entry; ix_subent := subent; ix_pointer := pointer;
     ix_target := Some "FE-56"; ix_projectile := "N";
     ix_reaction := Some reaction; ix_quantity := "SIG"; ix_author := Some author |}.

Definition sample_index : list index_row :=
  [sample_row "10001" "10001002" None "26-FE-56(N,TOT),,SIG" "A.Author";
   sample_row "10001" "10001002" (Some " ") "26-FE-56(N,EL),,SIG" "B.Author";
   sample_row "10002" "10002002" (Some "1") "26-FE-56(N,G),,SIG" "C.Author"].

Definition sample_args : args :=
  {| index := "index.tbl"; output := "exfor.sqlite"; limit := 0;
     max_points_per_dataset := 5000 |}.

(** A process that is killed after [n] effects, started where an older
    store is in place. *)
Definition sample_state (n : nat) : run_state :=
  {| files := {[ "exfor.sqlite" := StoreFile empty_store ]};
     written_entries := ∅; stats := ∅; steps_left := n |}.

(** The same process at the start of the loop over the index: the
    temporary store is there and empty. *)
Definition sample_build_state : run_state :=
  {| files := {[ "exfor.sqlite.tmp.build" := StoreFile empty_store ]};
     written_entries := ∅; stats := ∅; steps_left := 100 |}.

(** A row all of whose cells [to_num] can coerce: no cell is an [int]
    beyond the range of a float. *)
Definition coercible (row : pyrow) : Prop :=
  match row with
  | RowSeq cells => Forall (λ cell, ∃ r, to_num cell = Ok r) cells
  | RowOther => True
  end.

(** The dataset of the end-to-end property of the specification. *)
Definition spec_dataset : dataset :=
  {| ds_labels := [Some "EN"; Some "DATA"; Some "DATA-ERR"];
     ds_units := [Some "MEV"; Some "B"; Some "B"];
     ds_data := [RowSeq [PyFloat (of_decimal false 10 (-1));
                         PyFloat (of_decimal false 25 (-1));
                         PyFloat (of_decimal false 1 (-1))]] |}.

(** Strictly increasing. *)
Definition increasing (l : list Z) : Prop := StronglySorted Z.lt l.

(** *** Notions of the proofs *)

(** [x] is not a NaN and carries the sign [s]. *)
Definition sign_is (s : bool) (x : float) : Prop :=
  match x with
  | S754_nan => False
  | S754_zero s' | S754_infinity s' | S754_finite s' _ _ => s' = s
  end.

(** [frame a st st']: from [st] to [st'] no file changed but those at
    the scratch paths. *)
Definition frame (a : args) (st st' : run_state) : Prop :=
  ∀ path, ¬ scratch_path a path -> files st' !! path = files st !! path.

Definition framed (a : args) {A} (m : M A) : Prop :=
  ∀ st st' r, m st = (st', r) -> frame a st st'.

(** The entry table is what it was at the start, [old], and then the
    records of this run, no two of them with the same pair. *)
Definition distinct_new (a : args) (old : list entry_row) (st : run_state) : Prop :=
  ∃ s new, tmp_store a st = Some s ∧ exfor_entries s = (old ++ new)%list ∧
           NoDup (map entry_key new).

(** ... and every pair of these records is marked as written. *)
Definition all_marked (a : args) (old : list entry_row) (st : run_state) : Prop :=
  ∃ s new, tmp_store a st = Some s ∧ exfor_entries s = (old ++ new)%list ∧
           NoDup (map entry_key new) ∧
           ∀ e, e ∈ new -> entry_key e ∈ written_entries st.

Definition keeps (a : args) (old : list entry_row) {A} (m : M A) : Prop :=
  ∀ st st' r, all_marked a old st -> m st = (st', r) ->
    distinct_new a old st' ∧ (∀ x, r = Ok x -> all_marked a old st').

(** From [st] with the store [s] to [st'] with the store [s']: the
    resolved rows [l] went in, first write wins. *)
Definition absorbed (a : args) (l : list (entry_row * list point))
    (st : run_state) (s : store) (st' : run_state) (s' : store) : Prop :=
  let won := first_wins (written_entries st) l in
  tmp_store a st' = Some s' ∧
  exfor_entries s' = (exfor_entries s ++ map fst won)%list ∧
  exfor_points s' = (exfor_points s ++ all_point_rows won)%list ∧
  exfor_meta s' = exfor_meta s ∧
  written_entries st' = list_to_set (map (entry_key ∘ fst) won) ∪ written_entries st.

(** The rows waiting for their flush all belong to the current entry. *)
Definition one_entry (current_entry : option string) (rows : list index_row) : Prop :=
  ∀ row, row ∈ rows -> current_entry = Some (ix_entry row).

Definition starts_outside (p : ascii -> bool) (s : string) : Prop :=
  match s with
  | String c _ => p c = false
  | EmptyString => True
  end.

(** A target of one of the three forms is made of capital letters,
    digits and dashes. *)
Definition target_char (c : ascii) : bool :=
  is_AZ c || is_digit c || Ascii.eqb c "-".

(** The end of a target after the mass, with the third group of the
    pattern: nothing or an isomer mark, and then the end of the string
    or one last newline. *)
Inductive target_tail : string -> option string -> Prop :=
| tail_ground nl :
    at_dollar nl = true -> target_tail nl None
| tail_isomer meta_state nl :
    all_chars is_digit meta_state = true -> at_dollar nl = true ->
    target_tail ("-M" ++ meta_state ++ nl) (Some meta_state).

(* ===================================================================== *)
(** ** Notions of the further properties                                  *)
(* ===================================================================== *)

(** A text without a colon. *)
Definition no_colon (s : string) : Prop :=
  all_chars (λ c, negb (Ascii.eqb c ":")) s = true.

(** The four rows of the meta table, written over what was there. *)
Definition with_meta (candidates : list index_row) (now : string) (a : args)
    (meta : gmap string string) : gmap string string :=
  <["candidate_rows" := candidate_rows_text candidates a]>
    (<["source" := source_text a]>
       (<["built_at" := now]> (<["schema_version" := "1"]> meta))).

(** [stats[name]] on the [defaultdict(int)] *)
Definition counter (name : string) (st : run_state) : Z :=
  default 0 (stats st !! name).

(** The counters of the rows that were dropped with one of the reasons
    [name] stands for. *)
Definition skips_as (retrieve : option string -> loaded) (a : args) (name : string)
    (row : index_row) : bool :=
  match retrieve (Some (ix_entry row)) with
  | Datasets dataset_map =>
      match resolve_row a dataset_map row with
      | Ok (Skip c) => String.eqb c name
      | _ => false
      end
  | _ => false
  end.

(** The counters of the loop that do not record the drop of a row. *)
Definition other_counters : list string :=
  ["entries_inserted"; "points_inserted"; "missing_entries"; "entry_load_errors"].

(** The lengths of the two tables are what they were, [e0] and [p0],
    plus what was counted. *)
Definition counted (a : args) (e0 p0 : Z) (st : run_state) : Prop :=
  ∃ s, tmp_store a st = Some s ∧
       Z.of_nat (length (exfor_entries s)) = e0 + counter "entries_inserted" st ∧
       Z.of_nat (length (exfor_points s)) = p0 + counter "points_inserted" st.



(* ===================================================================== *)
(** ** Numeric coercion and the unit converters                           *)
(* ===================================================================== *)

Lemma finite_or_none_finite x y :
  finite_or_none x = Some y -> y = x ∧ is_finite y = true.
Proof.
  unfold finite_or_none, is_finite.
  destruct x; simpl; intros H; inversion H; subst; auto.
Qed.

(** Whatever [to_num] returns is [None] or a finite float. *)
Lemma to_num_finite v x : to_num v = Ok (Some x) -> is_finite x = true.
Proof.
  destruct v as [ | b | z | y | s ]; simpl; try discriminate.
  - destruct (float_of_int _) as [y|e]; simpl; [|discriminate].
    intros H; inversion H as [H1]. by apply finite_or_none_finite in H1 as [_ ?].
  - destruct (float_of_int _) as [y|e]; simpl; [|discriminate].
    intros H; inversion H as [H1]. by apply finite_or_none_finite in H1 as [_ ?].
  - intros H; inversion H as [H1]. by apply finite_or_none_finite in H1 as [_ ?].
  - destruct (_ || _); [discriminate|].
    destruct (float_of_str _) as [y|]; [|discriminate].
    intros H; inversion H as [H1]. by apply finite_or_none_finite in H1 as [_ ?].
Qed.

(** [to_num] returns on everything but an [int] beyond the range of a
    float. *)
Lemma to_num_returns v :
  (∀ z, v = PyInt z -> float_of_int z ≠ Raise OverflowError) ->
  ∃ r, to_num v = Ok r.
Proof.
  intros Hz. destruct v as [ | b | z | y | s ]; simpl; eauto.
  - destruct b; vm_compute; eauto.
  - specialize (Hz z eq_refl). unfold float_of_int in *.
    destruct (binary_normalize _ _ _ _ _); simpl; eauto. congruence.
  - destruct (_ || _); eauto. destruct (float_of_str _); eauto.
Qed.

Lemma to_num_sentinels :
  to_num PyNone = Ok None ∧ to_num (PyStr "-") = Ok None ∧
  to_num (PyStr "NA") = Ok None ∧ to_num (PyStr "N/A") = Ok None ∧
  to_num (PyStr "") = Ok None ∧ to_num (PyStr "   ") = Ok None ∧
  to_num (PyStr "abc") = Ok None ∧ to_num (PyStr "nan") = Ok None ∧
  to_num (PyStr "1e400") = Ok None ∧ to_num (PyFloat S754_nan) = Ok None ∧
  to_num (PyFloat (S754_infinity true)) = Ok None ∧
  to_num (PyStr "3.14") = Ok (Some (of_decimal false 314 (-2))).
Proof. vm_compute. repeat split. Qed.

(** C7 (the code departs from the claim). [to_num] hands a float or a
    string that overflows to the finiteness test and returns null, but
    an [int] beyond the range of a float makes [float(value)] raise
    [OverflowError], which nothing catches: on the input [10 ** 400]
    [to_num] returns neither a finite float nor null. *)
Theorem to_num_huge_int_raises :
  to_num (PyInt (10 ^ 400)) = Raise OverflowError ∧
  to_num (PyStr "1e400") = Ok None ∧
  to_num (PyFloat (S754_infinity false)) = Ok None.
Proof. vm_compute. repeat split. Qed.

Lemma factors_table name :
  factors !! name =
  if String.eqb name "EV" then Some f_1_0
  else if String.eqb name "KEV" then Some f_1e3
  else if String.eqb name "MEV" then Some f_1e6
  else if String.eqb name "GEV" then Some f_1e9
  else if String.eqb name "MILLI-EV" then Some f_1em3
  else if String.eqb name "UEV" then Some f_1em6
  else if String.eqb name "NEV" then Some f_1em9
  else None.
Proof.
  unfold factors. simpl.
  repeat match goal with
         | |- context [String.eqb name ?k] =>
             destruct (String.eqb_spec name k) as [->|?];
             [ by vm_compute | rewrite lookup_insert_ne by congruence ]
         end.
  apply lookup_empty.
Qed.

(** C6. Both converters return null on a null value. [energy_to_ev]
    multiplies by the factor of its table (1, 1e3, 1e6, 1e9, 1e-3, 1e-6,
    1e-9 for EV, KEV, MEV, GEV, MILLI-EV, UEV, NEV), by 8.617333262e-5
    for K, and returns the value unchanged for any other unit.
    [kt_to_kev] returns the value for KEV, scales it by 1e-3 (a division
    by 1e3), 1e3 and 1e6 for EV, MEV and GEV, multiplies it by
    8.617333262e-8 for K, and returns it unchanged for any other unit.
    The constants are the floats nearest to the decimal literals, and
    (1000, "KEV") gives 1e6, (1, "K") gives 8.617333262e-5, (5, "XYZ")
    gives 5. *)
Theorem unit_converters :
  (∀ unit, energy_to_ev None unit = None ∧ kt_to_kev None unit = None) ∧
  (∀ value unit,
     energy_to_ev (Some value) unit =
       let u := norm_unit unit in
       if String.eqb u "EV" then Some (mul value (of_decimal false 1 0))
       else if String.eqb u "KEV" then Some (mul value (of_decimal false 1 3))
       else if String.eqb u "MEV" then Some (mul value (of_decimal false 1 6))
       else if String.eqb u "GEV" then Some (mul value (of_decimal false 1 9))
       else if String.eqb u "MILLI-EV" then Some (mul value (of_decimal false 1 (-3)))
       else if String.eqb u "UEV" then Some (mul value (of_decimal false 1 (-6)))
       else if String.eqb u "NEV" then Some (mul value (of_decimal false 1 (-9)))
       else if String.eqb u "K" then Some (mul value (of_decimal false 8617333262 (-14)))
       else Some value) ∧
  (∀ value unit,
     kt_to_kev (Some value) unit =
       let u := norm_unit unit in
       if String.eqb u "KEV" then Some value
       else if String.eqb u "EV" then Some (div value (of_decimal false 1 3))
       else if String.eqb u "MEV" then Some (mul value (of_decimal false 1 3))
       else if String.eqb u "GEV" then Some (mul value (of_decimal false 1 6))
       else if String.eqb u "K" then Some (mul value (of_decimal false 8617333262 (-17)))
       else Some value) ∧
  energy_to_ev (Some (of_decimal false 1000 0)) (Some "KEV") = Some (of_decimal false 1000000 0) ∧
  energy_to_ev (Some (of_decimal false 1 0)) (Some "K") = Some (of_decimal false 8617333262 (-14)) ∧
  energy_to_ev (Some (of_decimal false 5 0)) (Some "XYZ") = Some (of_decimal false 5 0).
Proof.
  split; [done|]. split; [|split; [|by vm_compute]].
  - intros value unit. unfold energy_to_ev. rewrite factors_table. simpl.
    repeat (destruct (String.eqb _ _); [reflexivity|]). reflexivity.
  - intros value unit. unfold kt_to_kev. simpl.
    repeat (destruct (String.eqb _ _); [reflexivity|]). reflexivity.
Qed.

(* ===================================================================== *)
(** ** The point extractor                                                *)
(* ===================================================================== *)

Lemma bind_Ok {A B} (m : result A) (k : A -> result B) b :
  m ≫= k = Ok b -> ∃ a, m = Ok a ∧ k a = Ok b.
Proof. destruct m as [a|e]; simpl; [eauto|discriminate]. Qed.

Ltac inv_bind H :=
  let a := fresh "a" in
  let Ha := fresh "Ha" in
  apply bind_Ok in H as (a & Ha & H).

Lemma index_of_first x labels i :
  index_of x labels = Some i <-> first_at (String.eqb x) labels i.
Proof.
  revert i. induction labels as [|y rest IH]; intros i; simpl.
  - split; [discriminate|]. intros [(l & Hl & _) _]. by destruct i.
  - destruct (String.eqb_spec x y) as [->|Hne].
    + split.
      * intros [= <-]. split.
        -- exists y. split; [done|]. apply String.eqb_refl.
        -- intros j l Hj. lia.
      * intros [_ Hmin]. destruct i as [|i]; [done|].
        specialize (Hmin 0%nat y ltac:(lia) eq_refl).
        rewrite String.eqb_refl in Hmin. discriminate.
    + destruct (index_of x rest) as [k|]; simpl.
      * split.
        -- intros [= <-]. destruct (proj1 (IH k) eq_refl) as [(l & Hl & Hx) Hmin]. split.
           ++ exists l. done.
           ++ intros [|j] l' Hj Hl'; simpl in Hl'.
              ** inversion Hl'; subst. by apply String.eqb_neq.
              ** apply (Hmin j); [lia|done].
        -- intros [(l & Hl & Hx) Hmin]. destruct i as [|i]; simpl in Hl.
           ++ inversion Hl; subst. apply String.eqb_eq in Hx. done.
           ++ f_equal. assert (Hi : Some k = Some i); [|congruence].
              apply IH. split; [eauto|]. intros j l' Hj Hl'.
              apply (Hmin (S j)); [lia|done].
      * split; [discriminate|].
        intros [(l & Hl & Hx) Hmin]. destruct i as [|i]; simpl in Hl.
        -- inversion Hl; subst. apply String.eqb_eq in Hx. done.
        -- assert (Hi : None = Some i); [|discriminate].
           apply IH. split; [eauto|]. intros j l' Hj Hl'.
           apply (Hmin (S j)); [lia|done].
Qed.

Lemma index_of_None x labels :
  index_of x labels = None <-> Forall (λ label, String.eqb x label = false) labels.
Proof.
  induction labels as [|y rest IH]; simpl.
  - split; [constructor|done].
  - destruct (String.eqb_spec x y) as [->|Hne].
    + split; [discriminate|]. intros H. inversion H; subst.
      rewrite String.eqb_refl in *. discriminate.
    + destruct (index_of x rest); simpl.
      * split; [discriminate|]. intros H. inversion H; subst.
        by apply IH in H3.
      * split; [|done]. intros _. constructor; [by apply String.eqb_neq|].
        by apply IH.
Qed.




Section ExtractFacts.
Variables (units : list string) (quantity : string) (data_index : nat).
Variables (energy_index kt_index err_index err_plus err_minus : option nat).

Local Abbreviation xrow :=
  (extract_row units quantity data_index energy_index kt_index err_index err_plus err_minus).
Local Abbreviation xrows :=
  (extract_rows units quantity data_index energy_index kt_index err_index err_plus err_minus).

(** What a row that yields a point looks like. *)
Lemma extract_row_Some k row p :
  xrow k row = Ok (Some p) ->
  ∃ cells cell ek,
    row = RowSeq cells ∧ cells !! data_index = Some cell ∧
    to_num cell = Ok (Some (value p)) ∧
    point_index p = k ∧
    row_energy_kt units quantity energy_index kt_index cells = Ok ek ∧
    energy_ev p = ek.1 ∧ kt_kev p = ek.2 ∧
    row_uncertainty err_index err_plus err_minus cells = Ok (uncertainty p).
Proof.
  destruct row as [cells|]; simpl; [|discriminate].
  intros H. inv_bind H. destruct a as [v|]; [|discriminate].
  inv_bind H. destruct a as [e kt]. inv_bind H. inversion H; subst; clear H.
  unfold row_value in Ha. destruct (cells !! data_index) as [cell|] eqn:Hc; [|discriminate].
  exists cells, cell, (e, kt). simpl. repeat split; auto.
Qed.

Lemma extract_rows_inv l start pts :
  xrows (enumerate start l) = Ok pts ->
  (length pts <= length l)%nat ∧
  increasing (map point_index pts) ∧
  Forall (λ p, ∃ i row, l !! i = Some row ∧ point_index p = start + Z.of_nat i ∧
                        xrow (point_index p) row = Ok (Some p)) pts.
Proof.
  revert start pts. induction l as [|row rest IH]; intros start pts; simpl.
  - intros [= <-]. simpl. repeat split; [lia|constructor|constructor].
  - intros H. inv_bind H. inv_bind H. inversion H; subst; clear H.
    rename a into o, a0 into pts'.
    destruct (IH _ _ Ha0) as (Hlen & Hinc & Hall).
    assert (Hall' : Forall (λ p, ∃ i row0, (row :: rest) !! i = Some row0 ∧
               point_index p = start + Z.of_nat i ∧
               xrow (point_index p) row0 = Ok (Some p)) pts').
    { eapply Forall_impl; [exact Hall|]. intros p (i & r & Hi & Hp & Hx).
      exists (S i), r. repeat split; auto. lia. }
    destruct o as [p|]; simpl.
    + pose proof (extract_row_Some _ _ _ Ha) as (? & ? & ? & _ & _ & _ & Hk & _).
      repeat split; [lia| |].
      * constructor; [done|]. rewrite Forall_map.
        eapply Forall_impl; [exact Hall|]. intros q (i & r & _ & Hq & _). simpl. lia.
      * constructor; [|done]. exists 0%nat, row. simpl. rewrite Hk.
        repeat split; auto. lia.
    + repeat split; [lia|done|done].
Qed.
End ExtractFacts.

Lemma slice_to_length {A} (l : list A) (stop : Z) :
  0 <= stop -> Z.of_nat (length (slice_to l stop)) <= stop.
Proof.
  intros H. unfold slice_to. destruct (Z.leb_spec 0 stop); [|lia].
  rewrite length_take. lia.
Qed.

Lemma extract_points_inv ds quantity max_points pts :
  extract_points ds quantity max_points = Ok pts ->
  pts = [] ∨
  ∃ data_index,
    let labels := upper_items (ds_labels ds) in
    resolve_data_index labels = Some data_index ∧
    extract_rows (upper_items (ds_units ds)) quantity data_index
      (find_index labels ["EN"; "ENERGY"; "EN-LAB"; "EN-CM"; "EN-RSL"; "E"])
      (find_index labels ["KT"; "KT-K"; "K-T"])
      (find_index labels ["DATA-ERR"; "D(DATA)"; "ERR"; "ERR-T"; "STAT-W G"])
      (find_index labels ["+DATA-ERR"])
      (find_index labels ["-DATA-ERR"])
      (enumerate 0 (visited_rows ds max_points)) = Ok pts.
Proof.
  unfold extract_points.
  destruct (upper_items (ds_labels ds)) as [|l0 ls] eqn:Hl.
  - intros [= <-]. by left.
  - destruct (resolve_data_index (l0 :: ls)) as [i|] eqn:Hi.
    + intros H. right. exists i. by split.
    + intros [= <-]. by left.
Qed.

(** How every returned point arises from a visited row. *)
Lemma extract_points_point ds quantity max_points pts p :
  extract_points ds quantity max_points = Ok pts -> p ∈ pts ->
  let labels := upper_items (ds_labels ds) in
  ∃ data_index row,
    resolve_data_index labels = Some data_index ∧
    0 <= point_index p ∧
    visited_rows ds max_points !! Z.to_nat (point_index p) = Some row ∧
    extract_row (upper_items (ds_units ds)) quantity data_index
      (find_index labels ["EN"; "ENERGY"; "EN-LAB"; "EN-CM"; "EN-RSL"; "E"])
      (find_index labels ["KT"; "KT-K"; "K-T"])
      (find_index labels ["DATA-ERR"; "D(DATA)"; "ERR"; "ERR-T"; "STAT-W G"])
      (find_index labels ["+DATA-ERR"])
      (find_index labels ["-DATA-ERR"])
      (point_index p) row = Ok (Some p).
Proof.
  intros H Hp. apply extract_points_inv in H as [->|(di & Hdi & H)].
  - by apply elem_of_nil in Hp.
  - apply extract_rows_inv in H as (_ & _ & Hall).
    rewrite Forall_forall in Hall. apply Hall in Hp as (i & row & Hi & Hk & Hx).
    exists di, row. repeat split; auto; [lia|].
    replace (Z.to_nat (point_index p)) with i by lia. done.
Qed.

Lemma cell_at_coercible cells index cell :
  Forall (λ cell, ∃ r, to_num cell = Ok r) cells ->
  cell_at cells index = Some cell -> ∃ r, to_num cell = Ok r.
Proof.
  intros Hall H. destruct index as [i|]; [|discriminate]. simpl in H.
  by eapply (Forall_lookup_1 _ _ _ _ Hall).
Qed.

Section ExtractReturns.
Variables (units : list string) (quantity : string) (data_index : nat).
Variables (energy_index kt_index err_index err_plus err_minus : option nat).

Lemma extract_row_returns k row :
  coercible row ->
  ∃ o, extract_row units quantity data_index energy_index kt_index
         err_index err_plus err_minus k row = Ok o.
Proof.
  destruct row as [cells|]; simpl; [|eauto]. intros Hall.
  assert (Hv : ∃ v, row_value data_index cells = Ok v).
  { unfold row_value. destruct (cells !! data_index) as [cell|] eqn:Hc; [|eauto].
    by eapply (Forall_lookup_1 _ _ _ _ Hall). }
  destruct Hv as [v ->]. simpl. destruct v as [v|]; [|eauto].
  assert (He : ∃ ek, row_energy_kt units quantity energy_index kt_index cells = Ok ek).
  { unfold row_energy_kt. destruct (String.eqb quantity "MACS").
    - destruct kt_index as [k'|]; [|eauto].
      destruct (cell_at cells (Some k')) as [cell|] eqn:Hc; [|eauto].
      destruct (cell_at_coercible _ _ _ Hall Hc) as [r ->]. simpl. eauto.
    - destruct energy_index as [k'|]; [|eauto].
      destruct (cell_at cells (Some k')) as [cell|] eqn:Hc; [|eauto].
      destruct (cell_at_coercible _ _ _ Hall Hc) as [r ->]. simpl. eauto. }
  destruct He as [[e kt] ->]. simpl.
  assert (Hu : ∃ u, row_uncertainty err_index err_plus err_minus cells = Ok u).
  { unfold row_uncertainty.
    destruct (cell_at cells err_index) as [cell|] eqn:Hc.
    - destruct (cell_at_coercible _ _ _ Hall Hc) as [r ->]. simpl. eauto.
    - destruct (cell_at cells err_plus) as [cp|] eqn:Hp; [|eauto].
      destruct (cell_at cells err_minus) as [cm|] eqn:Hm; [|eauto].
      destruct (cell_at_coercible _ _ _ Hall Hp) as [rp ->].
      destruct (cell_at_coercible _ _ _ Hall Hm) as [rm ->]. simpl. eauto. }
  destruct Hu as [u ->]. simpl. eauto.
Qed.

Lemma extract_rows_returns rows :
  Forall (λ kr, coercible kr.2) rows ->
  ∃ pts, extract_rows units quantity data_index energy_index kt_index
           err_index err_plus err_minus rows = Ok pts.
Proof.
  induction rows as [|[k row] rest IH]; intros Hall; simpl; [eauto|].
  inversion Hall as [|? ? Hrow Hrest]; subst. simpl in Hrow.
  destruct (extract_row_returns k row Hrow) as [o ->].
  destruct (IH Hrest) as [pts ->]. simpl. eauto.
Qed.
End ExtractReturns.

Lemma enumerate_snd {A} (P : A -> Prop) (l : list A) start :
  Forall P l -> Forall (λ kr, P kr.2) (enumerate start l).
Proof.
  revert start. induction l as [|x rest IH]; intros start H; simpl; [constructor|].
  inversion H; subst. constructor; auto.
Qed.

Lemma slice_to_Forall {A} (P : A -> Prop) (l : list A) stop :
  Forall P l -> Forall P (slice_to l stop).
Proof. intros H. unfold slice_to. destruct (0 <=? stop); by apply Forall_take. Qed.

(** [extract_points] returns a list, and raises nothing, on every
    dataset whose cells [to_num] can coerce. *)
Lemma extract_points_returns ds quantity max_points :
  Forall coercible (ds_data ds) ->
  ∃ pts, extract_points ds quantity max_points = Ok pts.
Proof.
  intros Hall. unfold extract_points.
  destruct (upper_items (ds_labels ds)); [eauto|].
  destruct (resolve_data_index _); [|eauto].
  apply extract_rows_returns, enumerate_snd, slice_to_Forall, Hall.
Qed.


(** C4. For the quantity MACS no returned point has an energy, and for
    every other quantity no returned point has a temperature. *)
Theorem energy_temperature_exclusive ds quantity max_points pts :
  extract_points ds quantity max_points = Ok pts ->
  Forall (λ p, (quantity = "MACS" -> energy_ev p = None) ∧
               (quantity ≠ "MACS" -> kt_kev p = None)) pts.
Proof.
  intros H. rewrite Forall_forall. intros p Hp.
  destruct (extract_points_point _ _ _ _ _ H Hp) as (di & row & _ & _ & _ & Hx).
  apply extract_row_Some in Hx as (cells & cell & [e kt] & _ & _ & _ & _ & Hek & He & Hkt & _).
  simpl in He, Hkt. subst e kt. unfold row_energy_kt in Hek.
  destruct (String.eqb_spec quantity "MACS") as [->|Hq].
  - split; [|done]. intros _.
    destruct (find_index _ _); [|by inversion Hek].
    destruct (cell_at _ _); [|by inversion Hek].
    inv_bind Hek. by inversion Hek.
  - split; [done|]. intros _.
    destruct (find_index _ ["EN"; _; _; _; _; _]); [|by inversion Hek].
    destruct (cell_at _ _); [|by inversion Hek].
    inv_bind Hek. by inversion Hek.
Qed.

Lemma energy_temperature_exclusive_witness :
  ∃ pts, extract_points sample_dataset_errors "MACS" 5000 = Ok pts ∧
         length pts = 2%nat ∧
         Forall (λ p, ("MACS" = "MACS" -> energy_ev p = None) ∧
                      ("MACS" ≠ "MACS" -> kt_kev p = None)) pts.
Proof.
  eexists. split; [vm_compute; reflexivity|]. split; [reflexivity|].
  apply (energy_temperature_exclusive sample_dataset_errors "MACS" 5000).
  vm_compute. reflexivity.
Defined.

(** C5. With a maximum point count of at least zero, the returned list
    has at most that many points, and the point indexes are at least
    zero and strictly increasing along the list. *)
Theorem points_bounded_and_increasing ds quantity max_points pts :
  extract_points ds quantity max_points = Ok pts ->
  0 <= max_points ->
  Z.of_nat (length pts) <= max_points ∧
  Forall (λ p, 0 <= point_index p) pts ∧
  increasing (map point_index pts).
Proof.
  intros H Hmax. split; [|split].
  - apply extract_points_inv in H as [->|(di & _ & H)]; [simpl; lia|].
    apply extract_rows_inv in H as (Hlen & _ & _).
    pose proof (slice_to_length (ds_data ds) max_points Hmax).
    unfold visited_rows in Hlen. lia.
  - rewrite Forall_forall. intros p Hp.
    by destruct (extract_points_point _ _ _ _ _ H Hp) as (_ & _ & _ & ? & _).
  - apply extract_points_inv in H as [->|(di & _ & H)]; [constructor|].
    by apply extract_rows_inv in H as (_ & ? & _).
Qed.

Lemma points_bounded_and_increasing_witness :
  ∃ pts, extract_points sample_dataset "SIG" 2 = Ok pts ∧
         map point_index pts = [0] ∧
         Z.of_nat (length pts) <= 2 ∧
         Forall (λ p, 0 <= point_index p) pts ∧
         increasing (map point_index pts).
Proof.
  eexists. split; [vm_compute; reflexivity|]. split; [reflexivity|].
  apply (points_bounded_and_increasing sample_dataset "SIG" 2); [|lia].
  vm_compute. reflexivity.
Defined.

(** C10. When the combined error column is resolved and its cell in a
    row coerces to null, the point of that row has a null uncertainty,
    whatever the +DATA-ERR and -DATA-ERR cells of the row hold. *)
Theorem combined_error_null_blocks_pair ds quantity max_points pts p cells i cell :
  extract_points ds quantity max_points = Ok pts ->
  p ∈ pts ->
  visited_rows ds max_points !! Z.to_nat (point_index p) = Some (RowSeq cells) ->
  find_index (upper_items (ds_labels ds))
             ["DATA-ERR"; "D(DATA)"; "ERR"; "ERR-T"; "STAT-W G"] = Some i ->
  cells !! i = Some cell ->
  to_num cell = Ok None ->
  uncertainty p = None.
Proof.
  intros H Hp Hrow Hi Hcell Hnum.
  destruct (extract_points_point _ _ _ _ _ H Hp) as (di & row & _ & _ & Hrow' & Hx).
  rewrite Hrow in Hrow'. inversion Hrow'; subst row; clear Hrow'.
  apply extract_row_Some in Hx as (cells' & _ & _ & [= <-] & _ & _ & _ & _ & _ & _ & Hu).
  unfold row_uncertainty in Hu. rewrite Hi in Hu. simpl in Hu.
  rewrite Hcell in Hu. simpl in Hu. rewrite Hnum in Hu. simpl in Hu.
  by inversion Hu.
Qed.

Lemma combined_error_null_blocks_pair_witness :
  ∃ p rest,
    extract_points sample_dataset_errors "SIG" 5000 = Ok (p :: rest) ∧
    to_num (PyStr "0.3") = Ok (Some (of_decimal false 3 (-1))) ∧
    to_num (PyStr "0.1") = Ok (Some (of_decimal false 1 (-1))) ∧
    uncertainty p = None.
Proof.
  eexists _, _. split; [vm_compute; reflexivity|].
  split; [vm_compute; reflexivity|]. split; [vm_compute; reflexivity|].
  eapply (combined_error_null_blocks_pair sample_dataset_errors "SIG" 5000 _ _
            [PyInt 30; PyStr "2.5"; PyStr "-"; PyStr "0.3"; PyStr "0.1"] 2%nat (PyStr "-")).
  - vm_compute. reflexivity.
  - apply list_elem_of_here.
  - vm_compute. reflexivity.
  - vm_compute. reflexivity.
  - reflexivity.
  - vm_compute. reflexivity.
Defined.

(* ===================================================================== *)
(** ** Signs of rounded results                                           *)
(* ===================================================================== *)

Lemma shr_1_nonneg mrs : 0 <= shr_m mrs -> 0 <= shr_m (shr_1 mrs).
Proof.
  destruct mrs as [m r s]. simpl.
  destruct m as [|p|p]; simpl; [lia| |lia].
  destruct p; simpl; lia.
Qed.

Lemma iter_pos_invariant {A} (P : A -> Prop) (f : A -> A) :
  (∀ x, P x -> P (f x)) -> ∀ n x, P x -> P (SpecFloat.iter_pos f n x).
Proof.
  intros Hf. induction n as [n IH|n IH|]; intros x Hx; simpl; auto.
Qed.

Lemma shr_nonneg mrs e n : 0 <= shr_m mrs -> 0 <= shr_m (shr mrs e n).1.
Proof.
  intros H. unfold shr. destruct n as [|p|p]; simpl; auto.
  apply (iter_pos_invariant (λ x, 0 <= shr_m x)); auto using shr_1_nonneg.
Qed.

Lemma shr_fexp_nonneg m e l : 0 <= m -> 0 <= shr_m (shr_fexp prec emax m e l).1.
Proof.
  intros H. unfold shr_fexp. apply shr_nonneg.
  destruct l as [|[]]; simpl; lia.
Qed.

Lemma round_nearest_even_nonneg m l : 0 <= m -> 0 <= round_nearest_even m l.
Proof.
  intros H. destruct l as [|[]]; simpl; try lia.
  destruct (Z.even m); lia.
Qed.

(** Rounding a magnitude keeps the sign it is given and makes no NaN. *)
Lemma binary_round_aux_sign s m e l :
  0 <= m -> sign_is s (binary_round_aux prec emax s m e l).
Proof.
  intros H. unfold binary_round_aux.
  pose proof (shr_fexp_nonneg m e l H) as H1.
  destruct (shr_fexp prec emax m e l) as [mrs' e'] eqn:E1. simpl in H1.
  pose proof (shr_fexp_nonneg _ e' loc_Exact
                (round_nearest_even_nonneg _ (loc_of_shr_record mrs') H1)) as H2.
  destruct (shr_fexp prec emax (round_nearest_even _ _) e' loc_Exact) as [mrs'' e''].
  simpl in H2. destruct (shr_m mrs'') as [|p|p]; simpl; [done| |lia].
  destruct (e'' <=? emax - prec); done.
Qed.

Lemma binary_round_sign s m e : sign_is s (binary_round prec emax s m e).
Proof.
  unfold binary_round. destruct (shl_align _ _ _) as [mz ez].
  apply binary_round_aux_sign. lia.
Qed.

Lemma fabs_sign x : isnan x = false -> sign_is false (fabs x).
Proof. destruct x; simpl; done. Qed.

Lemma add_sign_false x y :
  sign_is false x -> sign_is false y -> sign_is false (add x y).
Proof.
  destruct x as [sx|sx| |sx mx ex], y as [sy|sy| |sy my ey]; simpl;
    try done; intros -> ->; simpl; try done.
  unfold add, SFadd, binary_normalize. simpl.
  destruct (shl_align mx ex _).1 as [] eqn:?, (shl_align my ey _).1 as [] eqn:?;
    simpl; apply binary_round_sign.
Qed.

Lemma div_two_sign_false x : sign_is false x -> sign_is false (div x f_2_0).
Proof.
  destruct x as [sx|sx| |sx mx ex]; simpl; try done; intros ->; simpl; try done.
  unfold div, SFdiv, f_2_0.
  destruct (SFdiv_core_binary _ _ _ _ _ _) as [[mz ez] lz] eqn:E.
  apply binary_round_aux_sign.
  unfold SFdiv_core_binary in E.
  destruct (Z.div_eucl _ _) as [q r] eqn:Hd. inversion E; subst; clear E.
  match type of Hd with Z.div_eucl ?a ?b = _ =>
    pose proof (Z_div_mod a b ltac:(lia)) as Hdm; rewrite Hd in Hdm;
    assert (0 <= a) as Ha end.
  { destruct (_ - _ - _) as [|p|p]; simpl; try lia.
    apply Z.shiftl_nonneg. lia. }
  destruct Hdm as [Heq Hr]. nia.
Qed.

Lemma sign_false_nonneg x : sign_is false x -> nonneg x = true.
Proof. destruct x as [s|s| |s m e]; simpl; try done; intros ->; done. Qed.

Lemma to_num_not_nan v x : to_num v = Ok (Some x) -> isnan x = false.
Proof.
  intros H. apply to_num_finite in H. unfold is_finite in H.
  by destruct (isnan x).
Qed.

Lemma row_uncertainty_sign err_index err_plus err_minus cells u :
  row_uncertainty err_index err_plus err_minus cells = Ok (Some u) ->
  sign_is false u.
Proof.
  unfold row_uncertainty.
  destruct (cell_at cells err_index) as [cell|].
  - intros H. inv_bind H. destruct a as [err_value|]; inversion H; subst.
    apply fabs_sign. by eapply to_num_not_nan.
  - destruct (cell_at cells err_plus) as [cplus|]; [|discriminate].
    destruct (cell_at cells err_minus) as [cminus|]; [|discriminate].
    intros H. inv_bind H. inv_bind H.
    destruct a as [plus|], a0 as [minus|]; inversion H; subst.
    apply div_two_sign_false, add_sign_false; apply fabs_sign;
      by eapply to_num_not_nan.
Qed.

(** C9. The uncertainty of every returned point is null or a float [u]
    with [0.0 <= u]: the absolute value of the combined error, or half
    the sum of the absolute values of the plus and minus errors. *)
Theorem uncertainty_nonneg ds quantity max_points pts :
  extract_points ds quantity max_points = Ok pts ->
  Forall (λ p, match uncertainty p with
               | None => True
               | Some u => nonneg u = true
               end) pts.
Proof.
  intros H. rewrite Forall_forall. intros p Hp.
  destruct (extract_points_point _ _ _ _ _ H Hp) as (di & row & _ & _ & _ & Hx).
  apply extract_row_Some in Hx as (cells & _ & _ & _ & _ & _ & _ & _ & _ & _ & Hu).
  destruct (uncertainty p) as [u|]; [|done].
  apply row_uncertainty_sign in Hu. by apply sign_false_nonneg.
Qed.

Lemma uncertainty_nonneg_witness :
  ∃ pts, extract_points sample_dataset "SIG" 5000 = Ok pts ∧
         map uncertainty pts = [Some (of_decimal false 1 (-1)); Some (of_decimal false 2 (-1))] ∧
         Forall (λ p, match uncertainty p with
                      | None => True
                      | Some u => nonneg u = true
                      end) pts.
Proof.
  eexists. split; [vm_compute; reflexivity|]. split; [vm_compute; reflexivity|].
  apply (uncertainty_nonneg sample_dataset "SIG" 5000).
  vm_compute. reflexivity.
Defined.

(* ===================================================================== *)
(** ** The build driver: effects on the file system                       *)
(* ===================================================================== *)

Lemma bindM_inv {A B} (m : M A) (k : A -> M B) st st' r :
  (m ≫= k) st = (st', r) ->
  (∃ x st1, m st = (st1, Ok x) ∧ k x st1 = (st', r)) ∨
  (∃ e, m st = (st', Raise e) ∧ r = Raise e).
Proof.
  unfold mbind, M_bind. destruct (m st) as [st1 [x|e]]; intros H.
  - left. eauto.
  - right. inversion H; subst. eauto.
Qed.

Lemma append_cons c (s t : string) : String c s ++ t = String c (s ++ t).
Proof. reflexivity. Qed.

Lemma append_nil_l (t : string) : "" ++ t = t.
Proof. reflexivity. Qed.

Lemma append_ne (s t : string) : t ≠ "" -> s ++ t ≠ s.
Proof.
  intros Ht H. induction s as [|c s IH].
  - by rewrite append_nil_l in H.
  - rewrite append_cons in H. inversion H. auto.
Qed.

Lemma append_assoc (s t u : string) : (s ++ t) ++ u = s ++ (t ++ u).
Proof.
  induction s as [|c s IH]; [done|].
  rewrite !append_cons. f_equal. exact IH.
Qed.

Lemma tmp_output_ne a : tmp_output a ≠ output a.
Proof. by apply append_ne. Qed.

Lemma wal_ne path : wal path ≠ path.
Proof. by apply append_ne. Qed.

Lemma shm_ne path : shm path ≠ path.
Proof. by apply append_ne. Qed.

Lemma shm_wal_ne path : shm path ≠ wal path.
Proof.
  unfold shm, wal. intros H. induction path as [|c s IH].
  - by rewrite !append_nil_l in H.
  - rewrite !append_cons in H. inversion H. auto.
Qed.

(** The destination is none of the paths a build writes to. *)
Lemma output_not_scratch a : ¬ scratch_path a (output a).
Proof.
  unfold scratch_path, wal, shm, tmp_output. rewrite !append_assoc.
  intros [H|[H|H]]; symmetry in H; by apply append_ne in H.
Qed.

Lemma frame_refl a st : frame a st st.
Proof. by intros path _. Qed.

Lemma frame_trans a st1 st2 st3 : frame a st1 st2 -> frame a st2 st3 -> frame a st1 st3.
Proof. intros H1 H2 path Hp. rewrite H2, H1; auto. Qed.

Lemma frame_same_files a st st' : files st' = files st -> frame a st st'.
Proof. intros H path _. by rewrite H. Qed.

Lemma framed_bind a {A B} (m : M A) (k : A -> M B) :
  framed a m -> (∀ x, framed a (k x)) -> framed a (m ≫= k).
Proof.
  intros Hm Hk st st' r H. apply bindM_inv in H as [(x & st1 & H1 & H2)|(e & H1 & _)].
  - eapply frame_trans; [eapply Hm|eapply Hk]; eauto.
  - eapply Hm; eauto.
Qed.

Lemma framed_ret a {A} (x : A) : framed a (mret x).
Proof. intros st st' r [= <- _]. apply frame_refl. Qed.

Lemma framed_pure a {A} (m : M A) :
  (∀ st st' r, m st = (st', r) -> files st' = files st) -> framed a m.
Proof. intros H st st' r Hm. apply frame_same_files. eauto. Qed.

Lemma tick_files st st' r : tick st = (st', r) -> files st' = files st.
Proof. unfold tick. destruct (steps_left st); by intros [= <- _]. Qed.

Lemma framed_tick a : framed a tick.
Proof. apply framed_pure. apply tick_files. Qed.

Lemma framed_get_file a path : framed a (get_file path).
Proof. apply framed_pure. by intros st st' r [= <- _]. Qed.

Lemma framed_lift a {A} (x : result A) : framed a (lift x).
Proof. apply framed_pure. by intros st st' r [= <- _]. Qed.

Lemma framed_raise a {A} e : framed a (@raise A e).
Proof. apply framed_pure. by intros st st' r [= <- _]. Qed.

Lemma framed_bump a name n : framed a (bump name n).
Proof. apply framed_pure. by intros st st' r [= <- _]. Qed.

Lemma framed_is_written a k : framed a (is_written k).
Proof. apply framed_pure. by intros st st' r [= <- _]. Qed.

Lemma framed_mark_written a k : framed a (mark_written k).
Proof. apply framed_pure. by intros st st' r [= <- _]. Qed.

Lemma framed_init_locals a : framed a init_locals.
Proof. apply framed_pure. by intros st st' r [= <- _]. Qed.

Lemma framed_set_files a f :
  (∀ fs path, ¬ scratch_path a path -> f fs !! path = fs !! path) ->
  framed a (set_files f).
Proof. intros Hf st st' r [= <- _] path Hp. simpl. by apply Hf. Qed.

Lemma framed_connect a : framed a (connect (tmp_output a)).
Proof.
  unfold connect. apply framed_bind; [apply framed_tick|]. intros _.
  apply framed_bind; [apply framed_get_file|]. intros [f|]; [apply framed_ret|].
  apply framed_set_files. intros fs path Hp. apply lookup_insert_ne.
  intros <-. apply Hp. by left.
Qed.

Lemma framed_db_exec a stmt : framed a (db_exec (tmp_output a) stmt).
Proof.
  unfold db_exec. apply framed_bind; [apply framed_tick|]. intros _.
  apply framed_bind; [apply framed_get_file|].
  intros [[s|]|]; try apply framed_raise.
  apply framed_bind; [apply framed_lift|]. intros s'.
  apply framed_set_files. intros fs path Hp.
  rewrite !lookup_insert_ne; [done| | |]; intros <-; apply Hp; unfold scratch_path; auto.
Qed.

Lemma framed_db_close a : framed a (db_close (tmp_output a)).
Proof.
  unfold db_close. apply framed_bind; [apply framed_tick|]. intros _.
  apply framed_set_files. intros fs path Hp.
  rewrite !lookup_delete_ne; [done| |]; intros <-; apply Hp; unfold scratch_path; auto.
Qed.

Lemma framed_for_each a {A} (body : A -> M unit) l :
  (∀ x, framed a (body x)) -> framed a (for_each body l).
Proof.
  intros Hb. induction l as [|x rest IH]; simpl.
  - apply (framed_ret a ()).
  - apply framed_bind; auto.
Qed.

Lemma framed_process_row a dataset_map row : framed a (process_row a dataset_map row).
Proof.
  unfold process_row. apply framed_bind; [apply framed_lift|].
  intros [counter|e points]; [apply framed_bump|].
  apply framed_bind; [apply framed_is_written|]. intros [|]; [apply framed_ret|].
  repeat (apply framed_bind; [first [apply framed_db_exec|apply framed_mark_written|apply framed_bump]|intros _]).
  apply framed_bump.
Qed.

Lemma framed_flush_entry retrieve a entry rows : framed a (flush_entry retrieve a entry rows).
Proof.
  unfold flush_entry. destruct rows as [|row rest]; [apply framed_ret|].
  destruct (retrieve entry); try apply framed_bump.
  apply framed_for_each. intros x. apply framed_process_row.
Qed.

Lemma framed_scan retrieve a rows : ∀ current_entry entry_rows row_index,
  framed a (scan retrieve a current_entry entry_rows row_index rows).
Proof.
  induction rows as [|row rest IH]; intros cur pending idx; simpl.
  - apply framed_ret.
  - apply framed_bind.
    + case_bool_decide.
      * apply framed_bind; [apply framed_flush_entry|]. intros _. apply framed_ret.
      * apply framed_ret.
    + intros [cur' pending']. apply framed_bind; [|intros _; apply IH].
      destruct (_ =? _); [apply framed_db_exec|apply framed_ret].
Qed.

Lemma framed_build_tmp retrieve candidates now a :
  framed a (build_tmp retrieve candidates now a).
Proof.
  unfold build_tmp, build_rows, db_commit.
  apply framed_bind; [apply framed_connect|intros _].
  apply framed_bind; [apply framed_db_exec|intros _].
  apply framed_bind; [apply framed_init_locals|intros _].
  apply framed_bind.
  { apply framed_bind; [apply framed_scan|]. intros [cur pending].
    apply framed_flush_entry. }
  intros _.
  repeat (apply framed_bind; [apply framed_db_exec|intros _]).
  apply framed_db_close.
Qed.

Ltac inv_bindM H :=
  let x := fresh "x" in
  let st1 := fresh "st" in
  let H1 := fresh "H" in
  apply bindM_inv in H as [(x & st1 & H1 & H)|(? & ? & ?)]; [|discriminate].

Lemma db_exec_Ok path stmt st st' :
  db_exec path stmt st = (st', Ok ()) ->
  ∃ s s', files st !! path = Some (StoreFile s) ∧ stmt s = Ok s' ∧
          files st' = <[shm path := SideFile]>
                        (<[wal path := SideFile]> (<[path := StoreFile s']> (files st))) ∧
          written_entries st' = written_entries st.
Proof.
  unfold db_exec. intros H.
  apply bindM_inv in H as [(? & st1 & Ht & H)|(? & ? & ?)]; [|discriminate].
  apply bindM_inv in H as [(f & st2 & Hg & H)|(? & ? & ?)]; [|discriminate].
  inversion Hg; subst; clear Hg.
  assert (files st2 = files st ∧ written_entries st2 = written_entries st) as [Hf Hw].
  { unfold tick in Ht. destruct (steps_left st); inversion Ht; subst. done. }
  rewrite Hf in *. destruct (files st !! path) as [[s|]|] eqn:Hp; try discriminate.
  apply bindM_inv in H as [(s' & st3 & Hl & H)|(? & ? & ?)]; [|discriminate].
  inversion Hl; subst; clear Hl. inversion H; subst; clear H.
  exists s, s'. simpl. rewrite Hf, Hw. done.
Qed.

Lemma db_exec_store path stmt st st' :
  db_exec path stmt st = (st', Ok ()) -> ∃ s, files st' !! path = Some (StoreFile s).
Proof.
  intros H. apply db_exec_Ok in H as (s & s' & _ & _ & -> & _).
  exists s'. rewrite lookup_insert_ne by apply shm_ne.
  rewrite lookup_insert_ne by apply wal_ne. apply lookup_insert_eq.
Qed.

Lemma db_close_Ok path st st' :
  db_close path st = (st', Ok ()) ->
  files st' = delete (shm path) (delete (wal path) (files st)).
Proof.
  unfold db_close. intros H. inv_bindM H. inversion H; subst; clear H. simpl.
  by rewrite (tick_files _ _ _ H0).
Qed.

(** A build that ends well leaves a store at the temporary path. *)
Lemma build_tmp_Ok_store retrieve candidates now a st st1 :
  build_tmp retrieve candidates now a st = (st1, Ok ()) ->
  ∃ s, files st1 !! tmp_output a = Some (StoreFile s).
Proof.
  unfold build_tmp. intros H. do 9 inv_bindM H.
  repeat match goal with u : unit |- _ => destruct u end.
  match goal with
  | Hc : db_commit _ _ = _ |- _ => unfold db_commit in Hc; apply db_exec_store in Hc as (s & Hs)
  end.
  apply db_close_Ok in H. exists s. rewrite H.
  rewrite lookup_delete_ne by apply shm_ne.
  rewrite lookup_delete_ne by apply wal_ne. done.
Qed.

(** C8. Until the rename, a run changes no file but the temporary store
    and SQLite's two side files next to it. Whenever a run does not end
    well (an exception, or the process killed after any number of
    effects), the destination holds what it held before the run, or is
    still absent. A run that ends well has moved the finished temporary
    store onto the destination in its last step. *)
Theorem atomic_publish retrieve candidates now a st st' r :
  main retrieve candidates now a st = (st', r) ->
  (∀ path, ¬ scratch_path a path -> path ≠ output a ->
           files st' !! path = files st !! path) ∧
  (r ≠ Ok () -> files st' !! output a = files st !! output a) ∧
  (r = Ok () ->
   ∃ st1 s, build_tmp retrieve candidates now a st = (st1, Ok ()) ∧
            files st1 !! tmp_output a = Some (StoreFile s) ∧
            files st' !! output a = Some (StoreFile s) ∧
            files st' !! tmp_output a = None).
Proof.
  unfold main. intros H.
  apply bindM_inv in H as [([] & st1 & Hb & H)|(e & Hb & ->)].
  - pose proof (framed_build_tmp _ _ _ _ _ _ _ Hb) as Hframe.
    destruct (build_tmp_Ok_store _ _ _ _ _ _ Hb) as (s & Hs).
    unfold os_replace in H.
    apply bindM_inv in H as [(? & st2 & Ht & H)|(e & Ht & ->)].
    + pose proof (tick_files _ _ _ Ht) as Hf2.
      apply bindM_inv in H as [(f & st3 & Hg & H)|(e & Hg & ->)]; [|discriminate].
      inversion Hg; subst; clear Hg. rewrite Hf2, Hs in H.
      inversion H; subst; clear H. simpl. rewrite Hf2.
      split; [|split].
      * intros path Hp Hne. rewrite lookup_insert_ne by done.
        rewrite lookup_delete_ne by (intros <-; apply Hp; by left). by apply Hframe.
      * done.
      * intros _. exists st1, s. repeat split; auto.
        -- apply lookup_insert_eq.
        -- rewrite lookup_insert_ne by (symmetry; apply tmp_output_ne).
           apply lookup_delete_eq.
    + pose proof (tick_files _ _ _ Ht) as Hf2. rewrite Hf2.
      split; [|split]; [| |done].
      * intros path Hp _. by apply Hframe.
      * intros _. apply Hframe, output_not_scratch.
  - pose proof (framed_build_tmp _ _ _ _ _ _ _ Hb) as Hframe.
    split; [|split]; [| |done].
    + intros path Hp _. by apply Hframe.
    + intros _. apply Hframe, output_not_scratch.
Qed.

Lemma atomic_publish_witness :
  ∃ st',
    main sample_retrieve sample_index "2026-01-01 00:00:00" sample_args (sample_state 5)
      = (st', Raise Interrupted) ∧
    (∃ s, files st' !! "exfor.sqlite.tmp.build" = Some (StoreFile s) ∧
          length (exfor_entries s) = 1%nat) ∧
    files st' !! "exfor.sqlite" = Some (StoreFile empty_store).
Proof.
  eexists. split; [vm_compute; reflexivity|]. split.
  - eexists. split; [vm_compute; reflexivity|reflexivity].
  - refine (proj1 (proj2 (atomic_publish sample_retrieve sample_index
              "2026-01-01 00:00:00" sample_args (sample_state 5) _ (Raise Interrupted) _)) _).
    + vm_compute. reflexivity.
    + discriminate.
Defined.

(* ===================================================================== *)
(** ** The build driver: first write wins                                 *)
(* ===================================================================== *)

Lemma tick_written st st' r : tick st = (st', r) -> written_entries st' = written_entries st.
Proof. unfold tick. destruct (steps_left st); by intros [= <- _]. Qed.

Lemma db_exec_Raise path stmt st st' e :
  db_exec path stmt st = (st', Raise e) ->
  files st' = files st ∧ written_entries st' = written_entries st.
Proof.
  unfold db_exec. intros H.
  apply bindM_inv in H as [(? & st1 & Ht & H)|(? & Ht & ?)].
  2:{ split; [eapply tick_files|eapply tick_written]; eauto. }
  pose proof (tick_files _ _ _ Ht) as Hf. pose proof (tick_written _ _ _ Ht) as Hw.
  apply bindM_inv in H as [(f & st2 & Hg & H)|(? & Hg & ?)]; [|inversion Hg].
  inversion Hg; subst; clear Hg. rewrite <- Hf, <- Hw.
  destruct (files st2 !! path) as [[s|]|]; try (by inversion H).
  apply bindM_inv in H as [(s' & st3 & Hl & H)|(? & Hl & ?)].
  - inversion H.
  - by inversion Hl.
Qed.

Lemma tmp_store_db_exec a stmt st st' :
  db_exec (tmp_output a) stmt st = (st', Ok ()) ->
  ∃ s s', tmp_store a st = Some s ∧ stmt s = Ok s' ∧ tmp_store a st' = Some s' ∧
          written_entries st' = written_entries st.
Proof.
  intros H. apply db_exec_Ok in H as (s & s' & Hs & Hstmt & Hf & Hw).
  exists s, s'. unfold tmp_store. rewrite Hs, Hf.
  rewrite lookup_insert_ne by apply shm_ne.
  rewrite lookup_insert_ne by apply wal_ne.
  rewrite lookup_insert_eq. done.
Qed.

Section FirstWriteWins.
Variable retrieve : option string -> loaded.
Variable a : args.

Lemma all_marked_distinct old st : all_marked a old st -> distinct_new a old st.
Proof. intros (s & new & ? & ? & ? & _). by exists s, new. Qed.

Lemma keeps_bind old {A B} (m : M A) (k : A -> M B) :
  keeps a old m -> (∀ x, keeps a old (k x)) -> keeps a old (m ≫= k).
Proof.
  intros Hm Hk st st' r HJ H.
  apply bindM_inv in H as [(x & st1 & H1 & H2)|(e & H1 & ->)].
  - destruct (Hm _ _ _ HJ H1) as [_ HJ1]. eapply Hk; [|exact H2].
    by eapply HJ1.
  - destruct (Hm _ _ _ HJ H1) as [HJ' _]. split; [done|discriminate].
Qed.

Lemma keeps_same old {A} (m : M A) :
  (∀ st st' r, m st = (st', r) ->
     files st' = files st ∧ written_entries st' = written_entries st) ->
  keeps a old m.
Proof.
  intros Hm st st' r (s & new & Hs & He & Hnd & Hw) H.
  destruct (Hm _ _ _ H) as [Hf Hw'].
  assert (all_marked a old st').
  { exists s, new. unfold tmp_store in *. rewrite Hf, Hw'. done. }
  split; [by apply all_marked_distinct|done].
Qed.

Lemma keeps_ret old {A} (x : A) : keeps a old (mret x).
Proof. apply keeps_same. by intros st st' r [= <- _]. Qed.

Lemma keeps_bump old name n : keeps a old (bump name n).
Proof. apply keeps_same. by intros st st' r [= <- _]. Qed.

(** A statement that leaves the entry table alone. *)
Lemma keeps_db_exec old stmt :
  (∀ s s', stmt s = Ok s' -> exfor_entries s' = exfor_entries s) ->
  keeps a old (db_exec (tmp_output a) stmt).
Proof.
  intros Hstmt st st' r (s & new & Hs & He & Hnd & Hw) H.
  destruct r as [[]|e].
  - apply tmp_store_db_exec in H as (s0 & s' & Hs0 & Hst & Hs' & Hw').
    assert (s0 = s) as -> by congruence.
    assert (all_marked a old st').
    { exists s', new. rewrite Hw', (Hstmt _ _ Hst). done. }
    split; [by apply all_marked_distinct|done].
  - apply db_exec_Raise in H as [Hf Hw'].
    split; [|discriminate]. exists s, new. unfold tmp_store in *. by rewrite Hf.
Qed.

Lemma keeps_process_row old dataset_map row :
  keeps a old (process_row a dataset_map row).
Proof.
  unfold process_row. intros st st' r HJ H.
  apply bindM_inv in H as [(outcome & st0 & Hl & H)|(e & Hl & ->)].
  2:{ inversion Hl; subst. split; [by apply all_marked_distinct|discriminate]. }
  inversion Hl; subst st0; clear Hl.
  destruct outcome as [counter|e points]; [by eapply keeps_bump|].
  apply bindM_inv in H as [(seen & st0 & Hs & H)|(? & Hs & ?)]; [|inversion Hs].
  inversion Hs; subst st0 seen; clear Hs.
  case_bool_decide as Hkey; [by eapply (keeps_ret old ())|].
  destruct HJ as (s & new & Hst & He & Hnd & Hw).
  (* the entry record *)
  apply bindM_inv in H as [([] & st1 & H1 & H)|(x & H1 & ->)].
  2:{ apply db_exec_Raise in H1 as [Hf _]. split; [|discriminate].
      exists s, new. unfold tmp_store in *. by rewrite Hf. }
  apply tmp_store_db_exec in H1 as (s0 & s1 & Hs0 & Hins & Hs1 & Hw1).
  assert (s0 = s) as -> by congruence.
  unfold insert_entry in Hins. case_bool_decide as Hpk; [discriminate|].
  inversion Hins; subst s1; clear Hins.
  assert (Hnd1 : NoDup (map entry_key (new ++ [e]))).
  { rewrite map_app. apply NoDup_app. split; [done|]. split; [|apply NoDup_singleton].
    intros k Hk Hk'. apply list_elem_of_singleton in Hk'. subst k.
    apply Hpk. rewrite He, map_app. apply elem_of_app. by right. }
  assert (HD1 : distinct_new a old st1).
  { eexists. exists (new ++ [e])%list. split; [exact Hs1|]. simpl.
    by rewrite He, app_assoc. }
  (* its points *)
  apply bindM_inv in H as [([] & st2 & Hp & H)|(x & Hp & ->)].
  2:{ apply db_exec_Raise in Hp as [Hf _]. split; [|discriminate].
      destruct HD1 as (s1 & new1 & ? & ? & ?). exists s1, new1.
      unfold tmp_store in *. by rewrite Hf. }
  apply tmp_store_db_exec in Hp as (s1' & s2 & Hs1' & Hins & Hs2 & Hw2).
  rewrite Hs1 in Hs1'. inversion Hs1'; subst s1'; clear Hs1'.
  inversion Hins; subst s2; clear Hins. simpl in Hs2.
  (* the mark and the counters *)
  apply bindM_inv in H as [([] & st3 & H3 & H)|(x & H3 & ->)]; [|inversion H3].
  inversion H3; subst st3; clear H3.
  apply bindM_inv in H as [([] & st4 & H4 & H)|(x & H4 & ->)]; [|inversion H4].
  inversion H4; subst st4; clear H4.
  inversion H; subst st' r; clear H.
  match goal with |- distinct_new a old ?st ∧ _ => assert (all_marked a old st) as HJ' end.
  { eexists. exists (new ++ [e])%list. unfold tmp_store in *. simpl.
    split; [exact Hs2|]. simpl. split; [by rewrite He, app_assoc|]. split; [done|].
    intros e' He'. rewrite Hw2, Hw1. apply elem_of_app in He' as [He'|He'].
    - apply elem_of_union_r. auto.
    - apply list_elem_of_singleton in He'. subst e'. apply elem_of_union_l.
      by apply elem_of_singleton. }
  split; [by apply all_marked_distinct|done].
Qed.

Lemma keeps_for_each old {A} (body : A -> M unit) l :
  (∀ x, keeps a old (body x)) -> keeps a old (for_each body l).
Proof.
  intros Hb. induction l as [|x rest IH]; simpl.
  - apply (keeps_ret old ()).
  - apply keeps_bind; auto.
Qed.

Lemma keeps_flush_entry old entry rows : keeps a old (flush_entry retrieve a entry rows).
Proof.
  unfold flush_entry. destruct rows as [|row rest]; [apply keeps_ret|].
  destruct (retrieve entry); try apply keeps_bump.
  apply keeps_for_each. intros x. apply keeps_process_row.
Qed.

Lemma keeps_scan old rows : ∀ current_entry entry_rows row_index,
  keeps a old (scan retrieve a current_entry entry_rows row_index rows).
Proof.
  induction rows as [|row rest IH]; intros cur pending idx; simpl.
  - apply keeps_ret.
  - apply keeps_bind.
    + case_bool_decide.
      * apply keeps_bind; [apply keeps_flush_entry|]. intros _. apply keeps_ret.
      * apply keeps_ret.
    + intros [cur' pending']. apply keeps_bind; [|intros _; apply IH].
      destruct (_ =? _); [|apply keeps_ret].
      apply keeps_db_exec. by intros s s' [= <-].
Qed.

Lemma keeps_build_rows old rows : keeps a old (build_rows retrieve a rows).
Proof.
  unfold build_rows. apply keeps_bind; [apply keeps_scan|].
  intros [cur pending]. apply keeps_flush_entry.
Qed.

(** *** The tables after a run that ends well *)

Lemma first_wins_app seen l1 l2 :
  first_wins seen (l1 ++ l2) =
  (first_wins seen l1 ++
   first_wins (list_to_set (map (entry_key ∘ fst) (first_wins seen l1)) ∪ seen) l2)%list.
Proof.
  revert seen. induction l1 as [|[e points] rest IH]; intros seen; simpl.
  - f_equal. set_solver.
  - case_bool_decide; [apply IH|]. simpl. f_equal. rewrite IH. f_equal. f_equal.
    set_solver.
Qed.

Lemma absorbed_none st s st' :
  tmp_store a st' = Some s -> written_entries st' = written_entries st ->
  absorbed a [] st s st' s.
Proof.
  intros Hs Hw. unfold absorbed, all_point_rows. simpl.
  rewrite Hw, !app_nil_r. repeat split; auto. set_solver.
Qed.

Lemma absorbed_nil st s st' :
  tmp_store a st = Some s ->
  files st' = files st -> written_entries st' = written_entries st ->
  absorbed a [] st s st' s.
Proof.
  intros Hs Hf Hw. apply absorbed_none; [|done].
  unfold tmp_store in *. by rewrite Hf.
Qed.

Lemma absorbed_app l1 l2 st s st1 s1 st2 s2 :
  absorbed a l1 st s st1 s1 -> absorbed a l2 st1 s1 st2 s2 ->
  absorbed a (l1 ++ l2) st s st2 s2.
Proof.
  unfold absorbed, all_point_rows. simpl.
  intros (_ & He1 & Hp1 & Hm1 & Hw1) (Hs2 & He2 & Hp2 & Hm2 & Hw2).
  rewrite first_wins_app, <- Hw1.
  rewrite !map_app, concat_app, !app_assoc, <- He1, <- Hp1.
  repeat split; auto; [congruence|].
  rewrite Hw2, Hw1, list_to_set_app_L. set_solver.
Qed.

Lemma omap_cons_option_list {A B} (f : A -> option B) x (l : list A) :
  omap f (x :: l) = (option_list (f x) ++ omap f l)%list.
Proof. simpl. by destruct (f x). Qed.

Lemma process_row_absorbed dataset_map row st st' s :
  process_row a dataset_map row st = (st', Ok ()) ->
  tmp_store a st = Some s ->
  ∃ s', absorbed a (option_list (resolved_in a dataset_map row)) st s st' s'.
Proof.
  unfold process_row, resolved_in. intros H Hs.
  apply bindM_inv in H as [(outcome & st0 & Hl & H)|(? & ? & ?)]; [|discriminate].
  inversion Hl as [[Hst Hres]]; subst st0; clear Hl. rewrite Hres.
  destruct outcome as [counter|e points].
  { inversion H; subst; clear H. exists s. by apply absorbed_nil. }
  apply bindM_inv in H as [(seen & st0 & Hw & H)|(? & ? & ?)]; [|discriminate].
  inversion Hw; subst st0 seen; clear Hw.
  unfold absorbed, all_point_rows. simpl.
  case_bool_decide as Hkey.
  { inversion H; subst; clear H. exists s. simpl. rewrite !app_nil_r.
    repeat split; auto. set_solver. }
  apply bindM_inv in H as [([] & st1 & H1 & H)|(? & ? & ?)]; [|discriminate].
  apply tmp_store_db_exec in H1 as (s0 & s1 & Hs0 & Hins & Hs1 & Hw1).
  assert (s0 = s) as -> by congruence.
  unfold insert_entry in Hins. case_bool_decide; [discriminate|].
  inversion Hins; subst s1; clear Hins.
  apply bindM_inv in H as [([] & st2 & Hp & H)|(? & ? & ?)]; [|discriminate].
  apply tmp_store_db_exec in Hp as (s1' & s2 & Hs1' & Hins & Hs2 & Hw2).
  rewrite Hs1 in Hs1'. inversion Hs1'; subst s1'; clear Hs1'.
  inversion Hins; subst s2; clear Hins. simpl in Hs2.
  apply bindM_inv in H as [([] & st3 & H3 & H)|(? & ? & ?)]; [|discriminate].
  inversion H3; subst st3; clear H3.
  apply bindM_inv in H as [([] & st4 & H4 & H)|(? & ? & ?)]; [|discriminate].
  inversion H4; subst st4; clear H4.
  inversion H; subst st'; clear H.
  eexists. unfold tmp_store in *. simpl. split; [exact Hs2|]. simpl.
  rewrite app_nil_r, Hw2, Hw1. repeat split; auto. set_solver.
Qed.

Lemma for_each_absorbed dataset_map rows : ∀ st st' s,
  for_each (process_row a dataset_map) rows st = (st', Ok ()) ->
  tmp_store a st = Some s ->
  ∃ s', absorbed a (omap (resolved_in a dataset_map) rows) st s st' s'.
Proof.
  induction rows as [|row rest IH]; intros st st' s H Hs.
  - inversion H; subst. exists s. by apply absorbed_nil.
  - simpl in H.
    apply bindM_inv in H as [([] & st1 & H1 & H)|(? & ? & ?)]; [|discriminate].
    destruct (process_row_absorbed _ _ _ _ _ H1 Hs) as (s1 & Ha1).
    destruct (IH _ _ s1 H (proj1 Ha1)) as (s' & Ha2).
    exists s'. rewrite omap_cons_option_list. by eapply absorbed_app.
Qed.

Lemma omap_ext_in {A B} (f g : A -> option B) (l : list A) :
  (∀ x, x ∈ l -> f x = g x) -> omap f l = omap g l.
Proof.
  induction l as [|x rest IH]; intros H; [done|].
  rewrite !omap_cons_option_list, (H x), IH; [done| |by left].
  intros y Hy. apply H. by right.
Qed.

Lemma omap_none {A B} (l : list A) : omap (λ _, @None B) l = [].
Proof. by induction l. Qed.

Lemma flush_entry_absorbed entry rows st st' s :
  flush_entry retrieve a entry rows st = (st', Ok ()) ->
  one_entry entry rows ->
  tmp_store a st = Some s ->
  ∃ s', absorbed a (omap (row_resolution retrieve a) rows) st s st' s'.
Proof.
  unfold flush_entry. intros H Hone Hs.
  destruct rows as [|row0 rest] eqn:Hrows.
  { inversion H; subst. exists s. by apply absorbed_nil. }
  rewrite <- Hrows in *. clear Hrows.
  destruct (retrieve entry) as [| |dataset_map] eqn:Hr.
  - inversion H; subst; clear H. exists s.
    rewrite (omap_ext_in _ (λ _, None)), omap_none; [by apply absorbed_nil|].
    intros row Hrow. unfold row_resolution. by rewrite <- (Hone row), Hr.
  - inversion H; subst; clear H. exists s.
    rewrite (omap_ext_in _ (λ _, None)), omap_none; [by apply absorbed_nil|].
    intros row Hrow. unfold row_resolution. by rewrite <- (Hone row), Hr.
  - rewrite (omap_ext_in _ (resolved_in a dataset_map)); [by eapply for_each_absorbed|].
    intros row Hrow. unfold row_resolution. by rewrite <- (Hone row), Hr.
Qed.

Lemma scan_absorbed rows : ∀ current_entry entry_rows row_index st st' cur' rows' s,
  scan retrieve a current_entry entry_rows row_index rows st = (st', Ok (cur', rows')) ->
  one_entry current_entry entry_rows ->
  tmp_store a st = Some s ->
  ∃ flushed s',
    (entry_rows ++ rows = flushed ++ rows')%list ∧ one_entry cur' rows' ∧
    absorbed a (omap (row_resolution retrieve a) flushed) st s st' s'.
Proof.
  induction rows as [|row rest IH]; intros cur pending idx st st' cur' rows' s H Hone Hs.
  - inversion H; subst; clear H. exists [], s. rewrite app_nil_r. simpl.
    split; [done|]. split; [done|]. by apply absorbed_nil.
  - simpl in H.
    apply bindM_inv in H as [([cur2 pending2] & st1 & H1 & H)|(? & ? & ?)]; [|discriminate].
    apply bindM_inv in H as [([] & st2 & H2 & H)|(? & ? & ?)]; [|discriminate].
    (* the flush, when the entry changes *)
    assert (∃ l1 s1, (pending ++ [row] = l1 ++ pending2)%list ∧ one_entry cur2 pending2 ∧
              absorbed a (omap (row_resolution retrieve a) l1) st s st1 s1)
      as (l1 & s1 & Hl1 & Hone2 & Ha1).
    { case_bool_decide as Hchange.
      - apply bindM_inv in H1 as [([] & st0 & Hfl & H1)|(? & ? & ?)]; [|discriminate].
        inversion H1; subst; clear H1.
        assert (Hcur : one_entry
                  match cur with Some _ => cur | None => Some (ix_entry row) end pending).
        { intros r Hr. rewrite (Hone r Hr). done. }
        destruct (flush_entry_absorbed _ _ _ _ _ Hfl Hcur Hs) as (s1 & Ha).
        exists pending, s1. split; [done|]. split; [|done].
        intros r Hr. apply list_elem_of_singleton in Hr. by subst.
      - inversion H1; subst; clear H1. exists [], s. simpl.
        split; [done|]. split; [|by apply absorbed_nil].
        intros r Hr. apply elem_of_app in Hr as [Hr|Hr].
        + by rewrite (Hone r Hr).
        + apply list_elem_of_singleton in Hr. subst r.
          destruct (decide (Some (ix_entry row) =
                      match cur with Some _ => cur | None => Some (ix_entry row) end));
            [congruence|done]. }
    (* the commit of every 20000th row *)
    assert (absorbed a [] st1 s1 st2 s1) as Ha2.
    { destruct (_ =? _).
      - apply tmp_store_db_exec in H2 as (s0 & s' & Hs0 & Hok & Hs' & Hw).
        inversion Hok; subst s'. destruct Ha1 as (Hs1 & _).
        assert (s0 = s1) as -> by congruence. by apply absorbed_none.
      - inversion H2; subst. apply absorbed_nil; auto. apply Ha1. }
    destruct (IH _ _ _ _ _ _ _ s1 H Hone2 (proj1 Ha2))
      as (l3 & s' & Hl3 & Hone' & Ha3).
    exists (l1 ++ l3)%list, s'. split; [|split; [done|]].
    + rewrite <- app_assoc, <- Hl3, app_assoc, <- Hl1, <- app_assoc. done.
    + rewrite omap_app. eapply absorbed_app; [exact Ha1|].
      eapply (absorbed_app []); [exact Ha2|exact Ha3].
Qed.

Lemma build_rows_absorbed rows st st' s :
  build_rows retrieve a rows st = (st', Ok ()) ->
  tmp_store a st = Some s ->
  ∃ s', absorbed a (omap (row_resolution retrieve a) rows) st s st' s'.
Proof.
  unfold build_rows. intros H Hs.
  apply bindM_inv in H as [([cur pending] & st1 & H1 & H)|(? & ? & ?)]; [|discriminate].
  assert (Hnone : one_entry None []) by (intros r Hr; by apply elem_of_nil in Hr).
  destruct (scan_absorbed _ _ _ _ _ _ _ _ s H1 Hnone Hs)
    as (flushed & s1 & Hrows & Hone & Ha1).
  destruct (flush_entry_absorbed _ _ _ _ _ H Hone (proj1 Ha1)) as (s' & Ha2).
  exists s'. simpl in Hrows. rewrite Hrows, omap_app. by eapply absorbed_app.
Qed.

Lemma process_row_seen dataset_map row e points st :
  resolve_row a dataset_map row = Ok (Resolved e points) ->
  entry_key e ∈ written_entries st ->
  process_row a dataset_map row st = (st, Ok ()).
Proof.
  intros Hres Hkey. unfold process_row, mbind, M_bind, lift, is_written.
  rewrite Hres. by rewrite bool_decide_true.
Qed.
End FirstWriteWins.

Lemma first_wins_first seen l e points :
  ((e, points) ∈ first_wins seen l) ->
  (entry_key e ∉ seen) ∧
  ∃ before after, l = (before ++ (e, points) :: after)%list ∧
                  Forall (λ ep, entry_key ep.1 ≠ entry_key e) before.
Proof.
  revert seen. induction l as [|[e0 p0] rest IH]; intros seen; simpl.
  - intros H. by apply elem_of_nil in H.
  - case_bool_decide as Hk.
    + intros H. destruct (IH _ H) as (Hns & before & after & -> & Hb).
      split; [done|]. exists ((e0, p0) :: before), after. split; [done|].
      constructor; [|done]. simpl. intros Heq. apply Hns. by rewrite <- Heq.
    + intros H. apply elem_of_cons in H as [[= <- <-]|H].
      * split; [done|]. exists [], rest. split; [done|constructor].
      * destruct (IH _ H) as (Hns & before & after & -> & Hb).
        split; [set_solver|]. exists ((e0, p0) :: before), after. split; [done|].
        constructor; [|done]. simpl. intros Heq. apply Hns. rewrite Heq. set_solver.
Qed.

Lemma first_wins_covers seen l e points :
  ((e, points) ∈ l) ->
  entry_key e ∈ seen ∨
  ∃ e' points', (e', points') ∈ first_wins seen l ∧ entry_key e' = entry_key e.
Proof.
  revert seen. induction l as [|[e0 p0] rest IH]; intros seen H; simpl.
  - by apply elem_of_nil in H.
  - apply elem_of_cons in H as [[= <- <-]|H].
    + case_bool_decide as Hk; [by left|]. right. exists e, points. split; [by left|done].
    + case_bool_decide as Hk; [by apply IH|].
      destruct (IH ({[entry_key e0]} ∪ seen) H) as [Hin|(e' & p' & Hin & Heq)].
      * apply elem_of_union in Hin as [Hin|Hin]; [|by left].
        apply elem_of_singleton in Hin. right. exists e0, p0. split; [by left|done].
      * right. exists e', p'. split; [by right|done].
Qed.

(** The pair of a resolved row: its entry, and its subentry alone when
    the pointer is blank, the subentry, a colon and the pointer
    otherwise. *)
Lemma resolve_row_key a dataset_map row e points :
  resolve_row a dataset_map row = Ok (Resolved e points) ->
  entry_key e =
    (ix_entry row,
     let pointer := norm_pointer (ix_pointer row) in
     if String.eqb pointer " " then ix_subent row
     else ix_subent row ++ ":" ++ pointer).
Proof.
  unfold resolve_row.
  destruct (parse_target _) as [[[z a_] state_]|]; [|discriminate].
  destruct (negb _); [discriminate|].
  destruct (PROJECTILE_MAP !! _); [|discriminate].
  destruct (find_dataset _ _ _); [|discriminate].
  destruct (extract_points _ _ _) as [pts|]; [|discriminate]. simpl.
  destruct pts; [discriminate|]. intros [= <- _]. reflexivity.
Qed.

(** C3. The pair of a resolved row is its entry with its derived
    subentry identifier. A row that resolves to a pair already written
    in this run leaves the store, the set of written pairs and the
    counters as they are. However a run over the index ends, the entry
    records it has added carry pairwise different pairs. After a run
    that ends well, the records and points added are those of the
    resolved rows that are first for their pair, in the order of the
    rows: each such record has no row with its pair before it, and every
    resolved row has its pair among them. *)
Theorem first_write_wins retrieve a :
  (∀ dataset_map row e points,
     resolve_row a dataset_map row = Ok (Resolved e points) ->
     entry_key e =
       (ix_entry row,
        let pointer := norm_pointer (ix_pointer row) in
        if String.eqb pointer " " then ix_subent row
        else ix_subent row ++ ":" ++ pointer)) ∧
  (∀ dataset_map row e points st,
     resolve_row a dataset_map row = Ok (Resolved e points) ->
     entry_key e ∈ written_entries st ->
     process_row a dataset_map row st = (st, Ok ())) ∧
  (∀ rows st st' r s,
     build_rows retrieve a rows st = (st', r) ->
     tmp_store a st = Some s ->
     ∃ s' new, tmp_store a st' = Some s' ∧
               exfor_entries s' = (exfor_entries s ++ new)%list ∧
               NoDup (map entry_key new)) ∧
  (∀ rows st st' s,
     build_rows retrieve a rows st = (st', Ok ()) ->
     tmp_store a st = Some s ->
     written_entries st = ∅ ->
     let resolved := omap (row_resolution retrieve a) rows in
     let won := first_wins ∅ resolved in
     ∃ s', tmp_store a st' = Some s' ∧
           exfor_entries s' = (exfor_entries s ++ map fst won)%list ∧
           exfor_points s' = (exfor_points s ++ all_point_rows won)%list ∧
           (∀ e points, ((e, points) ∈ won) ->
              ∃ before after, resolved = (before ++ (e, points) :: after)%list ∧
                              Forall (λ ep, entry_key ep.1 ≠ entry_key e) before) ∧
           (∀ e points, ((e, points) ∈ resolved) ->
              ∃ e' points', (e', points') ∈ won ∧ entry_key e' = entry_key e)).
Proof.
  split; [|split; [|split]].
  - intros. by eapply resolve_row_key.
  - intros. by eapply process_row_seen.
  - intros rows st st' r s H Hs.
    assert (HJ : all_marked a (exfor_entries s) st).
    { exists s, []. rewrite app_nil_r. repeat split; auto; [constructor|].
      intros e He. by apply elem_of_nil in He. }
    destruct (keeps_build_rows retrieve a _ rows _ _ _ HJ H) as [(s' & new & ? & ? & ?) _].
    by exists s', new.
  - intros rows st st' s H Hs Hw resolved won.
    destruct (build_rows_absorbed retrieve a _ _ _ _ H Hs) as (s' & Hs' & He & Hp & _ & _).
    rewrite Hw in He, Hp. exists s'. repeat split; auto.
    + intros e points Hin. by apply first_wins_first in Hin as [_ ?].
    + intros e points Hin.
      destruct (first_wins_covers ∅ _ _ _ Hin) as [Hempty|?]; [|done].
      by apply elem_of_empty in Hempty.
Qed.

Lemma first_write_wins_witness :
  ∃ st',
    build_rows sample_retrieve sample_args sample_index sample_build_state = (st', Ok ()) ∧
    let won := first_wins ∅ (omap (row_resolution sample_retrieve sample_args) sample_index) in
    map (reference ∘ fst) won = [Some "A.Author"] ∧
    ∃ s', tmp_store sample_args st' = Some s' ∧
          exfor_entries s' = ([] ++ map fst won)%list ∧
          exfor_points s' = ([] ++ all_point_rows won)%list.
Proof.
  eexists. split; [vm_compute; reflexivity|]. split; [vm_compute; reflexivity|].
  destruct (proj2 (proj2 (proj2 (first_write_wins sample_retrieve sample_args)))
              sample_index sample_build_state _ empty_store
              ltac:(vm_compute; reflexivity) ltac:(vm_compute; reflexivity)
              ltac:(reflexivity))
    as (s' & Hs' & He & Hp & _).
  exists s'. split; [exact Hs'|]. split; [exact He|exact Hp].
Defined.

(* ===================================================================== *)
(** ** The target parser                                                  *)
(* ===================================================================== *)

Lemma all_chars_app p (s t : string) :
  all_chars p (s ++ t) = all_chars p s && all_chars p t.
Proof.
  induction s as [|c s IH]; [done|].
  rewrite append_cons. unfold all_chars in *. simpl. rewrite IH.
  by rewrite andb_assoc.
Qed.

(** Every symbol of the table is one to three capital letters. *)
Lemma ELEMENTS_symbols i symbol :
  ELEMENTS !! i = Some symbol ->
  all_chars is_AZ symbol = true ∧ symbol ≠ "" ∧ (String.length symbol <= 3)%nat.
Proof.
  intros H. apply list_elem_of_lookup_2 in H.
  assert (Hall : forallb (λ s, all_chars is_AZ s && negb (String.eqb s "")
                              && (String.length s <=? 3)%nat) ELEMENTS = true)
    by (vm_compute; reflexivity).
  rewrite forallb_forall in Hall. apply list_elem_of_In in H.
  specialize (Hall _ H). apply andb_true_iff in Hall as [Hall H3].
  apply andb_true_iff in Hall as [H1 H2].
  split; [done|]. split.
  - intros ->. discriminate.
  - by apply Nat.leb_le.
Qed.

Lemma all_chars_weaken (p q : ascii -> bool) s :
  (∀ c, p c = true -> q c = true) -> all_chars p s = true -> all_chars q s = true.
Proof.
  intros Hpq. unfold all_chars. rewrite !forallb_forall. auto.
Qed.

Lemma target_form_chars s t : target_form s t -> all_chars target_char s = true.
Proof.
  assert (Hsym : ∀ i symbol, ELEMENTS !! i = Some symbol ->
                             all_chars target_char symbol = true).
  { intros i symbol H. apply ELEMENTS_symbols in H as [H _].
    eapply all_chars_weaken; [|exact H]. intros c Hc. unfold target_char. by rewrite Hc. }
  assert (Hdig : ∀ d, digits d -> all_chars target_char d = true).
  { intros d [_ H]. eapply all_chars_weaken; [|exact H].
    intros c Hc. unfold target_char. rewrite Hc. by rewrite orb_true_r. }
  destruct 1; rewrite !all_chars_app;
    repeat (apply andb_true_iff; split); eauto.
Qed.

(** C2 (the code departs from the claim). The pattern ends in [$], which
    also matches just before a newline that ends the string, so the
    target "FE-56" followed by a newline is accepted as (26, 56, 0)
    although it has none of the three forms. The five examples of the
    claim come out as stated. *)
Theorem parse_target_accepts_trailing_newline :
  parse_target (Some ("FE-56" ++ String LF "")) = Some (26, 56, 0) ∧
  (∀ t, ¬ target_form ("FE-56" ++ String LF "") t) ∧
  parse_target (Some "FE-56") = Some (26, 56, 0) ∧
  parse_target (Some "U-235-M") = Some (92, 235, 1) ∧
  parse_target (Some "U-235-M2") = Some (92, 235, 2) ∧
  parse_target (Some "XX-10") = None ∧
  parse_target (Some "FE56") = None.
Proof.
  split; [by vm_compute|]. split; [|by vm_compute].
  intros t H. apply target_form_chars in H. vm_compute in H. discriminate.
Qed.

(** *** What the pattern matches *)

Lemma all_chars_cons p c s : all_chars p (String c s) = p c && all_chars p s.
Proof. reflexivity. Qed.

Lemma span_inv p s a b :
  span p s = (a, b) ->
  s = a ++ b ∧ all_chars p a = true ∧ starts_outside p b.
Proof.
  revert a b. induction s as [|c s IH]; intros a b; simpl.
  - intros [= <- <-]. done.
  - destruct (p c) eqn:Hc.
    + destruct (span p s) as [a' b'] eqn:Hs. intros [= <- <-].
      destruct (IH _ _ eq_refl) as (-> & Ha & Hb).
      rewrite append_cons, all_chars_cons, Hc, Ha. done.
    + intros [= <- <-]. simpl. done.
Qed.

Lemma span_app p a b :
  all_chars p a = true -> starts_outside p b -> span p (a ++ b) = (a, b).
Proof.
  induction a as [|c a IH]; intros Ha Hb.
  - rewrite append_nil_l. destruct b as [|c b]; simpl in *; [done|]. by rewrite Hb.
  - rewrite append_cons, all_chars_cons in *. apply andb_true_iff in Ha as [Hc Ha].
    simpl. rewrite Hc, IH; done.
Qed.

Lemma span_upto_inv n p s a b :
  span_upto n p s = (a, b) ->
  s = a ++ b ∧ all_chars p a = true ∧ (String.length a <= n)%nat.
Proof.
  revert s a b. induction n as [|n IH]; intros s a b; simpl.
  - intros [= <- <-]. simpl. repeat split; auto.
  - destruct s as [|c s]; [intros [= <- <-]; simpl; repeat split; auto; lia|].
    destruct (p c) eqn:Hc.
    + destruct (span_upto n p s) as [a' b'] eqn:Hs. intros [= <- <-].
      destruct (IH _ _ _ Hs) as (-> & Ha & Hlen).
      rewrite append_cons, all_chars_cons, Hc, Ha. simpl. repeat split; auto. lia.
    + intros [= <- <-]. simpl. repeat split; auto. lia.
Qed.

Lemma span_upto_app n p a b :
  all_chars p a = true -> (String.length a <= n)%nat -> starts_outside p b ->
  span_upto n p (a ++ b) = (a, b).
Proof.
  revert a. induction n as [|n IH]; intros a Ha Hlen Hb.
  - destruct a; simpl in Hlen; [|lia]. by rewrite append_nil_l.
  - destruct a as [|c a].
    + rewrite append_nil_l. destruct b as [|c b]; simpl in *; [done|]. by rewrite Hb.
    + rewrite append_cons, all_chars_cons in *. apply andb_true_iff in Ha as [Hc Ha].
      simpl in *. rewrite Hc, IH; [done|done|lia|done].
Qed.

Lemma at_dollar_spec s : at_dollar s = true <-> s = "" ∨ s = String LF "".
Proof.
  unfold at_dollar. rewrite orb_true_iff, !String.eqb_eq. done.
Qed.

(** [target_re] is the pattern. *)
Lemma target_re_spec s symbol mass meta_state :
  target_re s = Some (symbol, mass, meta_state) <->
  all_chars is_AZ symbol = true ∧ symbol ≠ "" ∧ (String.length symbol <= 3)%nat ∧
  digits mass ∧
  ∃ tail, target_tail tail meta_state ∧ s = symbol ++ "-" ++ mass ++ tail.
Proof.
  split.
  - unfold target_re.
    destruct (span_upto 3 is_AZ s) as [sym r1] eqn:H1.
    apply span_upto_inv in H1 as (-> & Hsym & Hlen).
    destruct (String.eqb_spec sym "") as [->|Hne]; [discriminate|].
    destruct r1 as [|c r2]; [discriminate|].
    destruct (Ascii.eqb_spec c "-") as [->|Hc].
    2:{ destruct c as [[] [] [] [] [] [] [] []]; try discriminate. by destruct Hc. }
    destruct (span is_digit r2) as [m r3] eqn:H2.
    apply span_inv in H2 as (-> & Hm & Hout).
    destruct (String.eqb_spec m "") as [->|Hmne]; [discriminate|].
    assert (Hground : (if at_dollar r3 then Some (sym, m, None) else None)
                      = Some (symbol, mass, meta_state) ->
              all_chars is_AZ symbol = true ∧ symbol ≠ "" ∧
              (String.length symbol <= 3)%nat ∧ digits mass ∧
              ∃ tail, target_tail tail meta_state ∧
                      sym ++ String "-" (m ++ r3) = symbol ++ "-" ++ mass ++ tail).
    { destruct (at_dollar r3) eqn:Hd; [|discriminate]. intros [= <- <- <-].
      repeat split; auto. exists r3. split; [by constructor|done]. }
    destruct r3 as [|c3 r3']; [exact Hground|].
    destruct (Ascii.eqb_spec c3 "-") as [->|Hc3].
    2:{ destruct c3 as [[] [] [] [] [] [] [] []]; try exact Hground. by destruct Hc3. }
    destruct r3' as [|c4 r4]; [exact Hground|].
    destruct (Ascii.eqb_spec c4 "M") as [->|Hc4].
    2:{ destruct c4 as [[] [] [] [] [] [] [] []]; try exact Hground. by destruct Hc4. }
    clear Hground.
    destruct (span is_digit r4) as [ms r5] eqn:H3.
    apply span_inv in H3 as (-> & Hms & _).
    destruct (at_dollar r5) eqn:Hd; [|discriminate]. intros [= <- <- <-].
    repeat split; auto. exists ("-M" ++ ms ++ r5). split; [by constructor|done].
  - intros (Hsym & Hne & Hlen & [Hmne Hm] & tail & Htail & ->).
    unfold target_re.
    change (symbol ++ "-" ++ mass ++ tail) with (symbol ++ String "-" (mass ++ tail)).
    rewrite (span_upto_app 3 is_AZ symbol (String "-" (mass ++ tail))) by done.
    destruct (String.eqb_spec symbol "") as [->|_]; [done|].
    destruct Htail as [nl Hnl|ms nl Hms Hnl].
    + rewrite (span_app is_digit mass nl); [| done |].
      2:{ apply at_dollar_spec in Hnl as [->| ->]; simpl; done. }
      destruct (String.eqb_spec mass "") as [->|_]; [done|].
      rewrite Hnl. apply at_dollar_spec in Hnl as [->| ->]; done.
    + change ("-M" ++ ms ++ nl) with (String "-" (String "M" (ms ++ nl))).
      rewrite (span_app is_digit mass); [|done|simpl; done].
      destruct (String.eqb_spec mass "") as [->|_]; [done|].
      rewrite (span_app is_digit ms nl); [|done|].
      2:{ apply at_dollar_spec in Hnl as [->| ->]; simpl; done. }
      by rewrite Hnl.
Qed.

Lemma enumerate_lookup {A} (l : list A) start i x :
  l !! i = Some x -> (start + Z.of_nat i, x) ∈ enumerate start l.
Proof.
  revert start i. induction l as [|y rest IH]; intros start i H; [by destruct i|].
  destruct i as [|i]; simpl in H.
  - inversion H; subst. replace (start + Z.of_nat 0) with start by lia. by left.
  - replace (start + Z.of_nat (S i)) with (start + 1 + Z.of_nat i) by lia.
    right. by apply IH.
Qed.

(** The table maps the i-th symbol, counted from zero, to [i + 1]. *)
Lemma SYMBOL_TO_Z_spec symbol z :
  SYMBOL_TO_Z !! symbol = Some z <->
  ∃ i, ELEMENTS !! i = Some symbol ∧ z = Z.of_nat i + 1.
Proof.
  split.
  - intros H. apply elem_of_map_to_list in H.
    assert (Hall : forallb (λ kv, bool_decide (ELEMENTS !! Z.to_nat (kv.2 - 1) = Some kv.1)
                                  && (1 <=? kv.2))
                     (map_to_list SYMBOL_TO_Z) = true) by (vm_compute; reflexivity).
    rewrite forallb_forall in Hall. apply list_elem_of_In in H.
    specialize (Hall _ H). cbn [fst snd] in Hall. apply andb_true_iff in Hall as [H1 H2].
    apply bool_decide_eq_true in H1. apply Z.leb_le in H2.
    exists (Z.to_nat (z - 1)). split; [done|lia].
  - intros (i & Hi & ->).
    assert (Hall : forallb (λ kv, bool_decide (SYMBOL_TO_Z !! kv.2 = Some (kv.1 + 1)))
                     (enumerate 0 ELEMENTS) = true) by (vm_compute; reflexivity).
    rewrite forallb_forall in Hall.
    pose proof (enumerate_lookup ELEMENTS 0 i symbol Hi) as Hin.
    apply list_elem_of_In in Hin. specialize (Hall _ Hin). cbn [fst snd] in Hall.
    by apply bool_decide_eq_true in Hall.
Qed.





(* ===================================================================== *)
(** ** The examples of the specification                                  *)
(* ===================================================================== *)

Example projectile_mapping :
  PROJECTILE_MAP !! "N" = Some "n" ∧
  PROJECTILE_MAP !! "HE3" = PROJECTILE_MAP !! "H" ∧
  PROJECTILE_MAP !! "X" = None.
Proof. by vm_compute. Qed.

(** [l[:-1]] drops the last element. *)
Example slice_to_negative_stop : slice_to [1; 2; 3] (-1) = [1; 2].
Proof. reflexivity. Qed.

(** The end-to-end property: one row of the index for FE-56, SIG and N,
    with the dataset EN/DATA/DATA-ERR in MEV and B and the row
    (1.0, 2.5, 0.1), gives one entry (Z = 26, A = 56, state 0,
    projectile n) and one point (0, 1.0e6, null, 2.5, 0.1) at the
    destination. *)
Example end_to_end :
  let retrieve entry :=
    match entry with
    | Some "10001" => Datasets [(("10001", "10001002", " "), spec_dataset)]
    | _ => NotFound
    end in
  let rows := [sample_row "10001" "10001002" None "26-FE-56(N,TOT),,SIG" "A.Author"] in
  ∃ st' s,
    main retrieve rows "2026-01-01 00:00:00" sample_args (sample_state 100) = (st', Ok ()) ∧
    files st' !! "exfor.sqlite" = Some (StoreFile s) ∧
    map (λ e, (target_Z e, target_A e, state e, projectile e)) (exfor_entries s)
      = [(26, 56, 0, "n")] ∧
    map p_point (exfor_points s)
      = [{| point_index := 0;
            energy_ev := Some (of_decimal false 1000000 0);
            kt_kev := None;
            value := of_decimal false 25 (-1);
            uncertainty := Some (of_decimal false 1 (-1)) |}].
Proof.
  eexists _, _. split; [vm_compute; reflexivity|].
  split; [vm_compute; reflexivity|]. split; vm_compute; reflexivity.
Qed.

(* ===================================================================== *)
(** ** Further properties: the target parser and its table                *)
(* ===================================================================== *)

Lemma digits_value_acc_nonneg s acc :
  all_chars is_digit s = true -> 0 <= acc -> 0 <= digits_value_acc acc s.
Proof.
  revert acc. induction s as [|c s IH]; intros acc Hs Hacc; simpl; [done|].
  rewrite all_chars_cons in Hs. apply andb_true_iff in Hs as [Hc Hs].
  apply IH; [done|]. unfold is_digit in Hc. apply andb_true_iff in Hc as [Hc _].
  apply Z.leb_le in Hc. lia.
Qed.

Lemma ELEMENTS_length : length ELEMENTS = 118%nat.
Proof. by vm_compute. Qed.

(** X1. When [parse_target] returns a triple, the atomic number lies
    between 1 and 118, and the mass number and the isomer state are not
    negative. *)
Theorem parse_target_ranges s z mass state :
  parse_target (Some s) = Some (z, mass, state) ->
  1 <= z <= 118 ∧ 0 <= mass ∧ 0 <= state.
Proof.
  unfold parse_target. change (default "" (Some s)) with s.
  destruct (target_re s) as [[[symbol m] meta_state]|] eqn:Hre; [|discriminate].
  apply target_re_spec in Hre as (_ & _ & _ & [_ Hm] & tail & Htail & _).
  destruct (SYMBOL_TO_Z !! symbol) as [z'|] eqn:Hz; [|discriminate].
  apply SYMBOL_TO_Z_spec in Hz as (i & Hi & ->). intros [= <- <- <-].
  apply lookup_lt_Some in Hi. rewrite ELEMENTS_length in Hi.
  split; [lia|]. split; [by apply digits_value_acc_nonneg|].
  destruct Htail as [nl _|ms nl Hms _]; simpl; [lia|].
  destruct ms; [lia|]. by apply digits_value_acc_nonneg.
Qed.

Lemma parse_target_ranges_witness :
  parse_target (Some "U-235-M2") = Some (92, 235, 2) ∧
  (1 <= 92 <= 118 ∧ 0 <= 235 ∧ 0 <= 2).
Proof.
  split; [by vm_compute|].
  apply (parse_target_ranges "U-235-M2" 92 235 2). by vm_compute.
Defined.

(** X2. The table of symbols is a bijection between its 118 symbols and
    the atomic numbers 1 to 118: no two symbols share a number, and
    every number from 1 to 118 belongs to a symbol. *)
Theorem symbol_table_bijection :
  (∀ s1 s2 z, SYMBOL_TO_Z !! s1 = Some z -> SYMBOL_TO_Z !! s2 = Some z -> s1 = s2) ∧
  (∀ z, 1 <= z <= 118 -> ∃ s, SYMBOL_TO_Z !! s = Some z) ∧
  (∀ s z, SYMBOL_TO_Z !! s = Some z -> 1 <= z <= 118).
Proof.
  split; [|split].
  - intros s1 s2 z H1 H2.
    apply SYMBOL_TO_Z_spec in H1 as (i1 & Hi1 & ->).
    apply SYMBOL_TO_Z_spec in H2 as (i2 & Hi2 & Heq).
    assert (i1 = i2) as -> by lia. congruence.
  - intros z Hz.
    destruct (lookup_lt_is_Some_2 ELEMENTS (Z.to_nat (z - 1))) as [s Hs].
    { rewrite ELEMENTS_length. lia. }
    exists s. apply SYMBOL_TO_Z_spec. exists (Z.to_nat (z - 1)). split; [done|lia].
  - intros s z H. apply SYMBOL_TO_Z_spec in H as (i & Hi & ->).
    apply lookup_lt_Some in Hi. rewrite ELEMENTS_length in Hi. lia.
Qed.


(* ===================================================================== *)
(** ** Further properties: coercion and normalisation of text             *)
(* ===================================================================== *)

Lemma lstrip_starts_outside s : starts_outside is_space (lstrip s).
Proof.
  induction s as [|c s IH]; simpl; [done|].
  destruct (is_space c) eqn:Hc; [done|]. simpl. done.
Qed.

Lemma lstrip_fixed s : starts_outside is_space s -> lstrip s = s.
Proof. destruct s as [|c s]; simpl; [done|]. by intros ->. Qed.

Lemma rstrip_starts_outside s :
  starts_outside is_space s -> starts_outside is_space (rstrip s).
Proof.
  destruct s as [|c s]; simpl; [done|]. intros Hc.
  destruct (rstrip s); [by rewrite Hc|done].
Qed.

Lemma rstrip_idempotent s : rstrip (rstrip s) = rstrip s.
Proof.
  induction s as [|c s IH]; simpl; [done|].
  destruct (rstrip s) as [|d r'] eqn:Hr.
  - destruct (is_space c) eqn:Hc; simpl; [done|]. by rewrite Hc.
  - simpl in *. by rewrite IH.
Qed.

Lemma strip_idempotent s : strip (strip s) = strip s.
Proof.
  unfold strip.
  rewrite (lstrip_fixed (rstrip (lstrip s))).
  - apply rstrip_idempotent.
  - apply rstrip_starts_outside, lstrip_starts_outside.
Qed.

(** X4. Coercion is idempotent: a float that [to_num] has returned is
    returned unchanged when it is coerced again, and a float is
    returned as it is exactly when it is finite. *)
Theorem to_num_idempotent :
  (∀ v x, to_num v = Ok (Some x) -> to_num (PyFloat x) = Ok (Some x)) ∧
  (∀ x, to_num (PyFloat x) = Ok (if is_finite x then Some x else None)).
Proof.
  assert (Hfl : ∀ x, to_num (PyFloat x) = Ok (if is_finite x then Some x else None)).
  { intros x. simpl. unfold finite_or_none, is_finite. by destruct x. }
  split; [|done]. intros v x H. rewrite Hfl. by rewrite (to_num_finite _ _ H).
Qed.

(** X5. Blank characters around a text do not matter to [to_num]: a
    text and its stripped form coerce to the same result, and stripping
    twice is stripping once. *)
Theorem to_num_ignores_surrounding_blanks s :
  to_num (PyStr (strip s)) = to_num (PyStr s) ∧ strip (strip s) = strip s.
Proof.
  split; [|apply strip_idempotent]. simpl. by rewrite strip_idempotent.
Qed.













(* ===================================================================== *)
(** ** Further properties: the column search and the rows of a dataset    *)
(* ===================================================================== *)

Lemma index_of_absent x (labels : list string) :
  index_of x labels = None -> x ∉ labels.
Proof.
  intros H Hin. apply index_of_None in H. rewrite Forall_forall in H.
  specialize (H x Hin). by rewrite String.eqb_refl in H.
Qed.

(** X7. [find_index] goes by the order of the candidates, not of the
    labels: it returns the first position of the first candidate that
    occurs among the labels, and nothing exactly when no candidate
    occurs. *)
Theorem find_index_priority (labels candidates : list string) :
  match find_index labels candidates with
  | Some i =>
      ∃ before c after,
        candidates = (before ++ c :: after)%list ∧
        Forall (λ b, b ∉ labels) before ∧
        labels !! i = Some c ∧
        (∀ j, (j < i)%nat -> labels !! j ≠ Some c)
  | None => Forall (λ c, c ∉ labels) candidates
  end.
Proof.
  induction candidates as [|c rest IH]; simpl; [constructor|].
  destruct (index_of c labels) as [i|] eqn:Hi.
  - apply index_of_first in Hi as [(l & Hl & Heq) Hmin].
    apply String.eqb_eq in Heq. subst l.
    exists [], c, rest. repeat split; auto.
    intros j Hj Hlj. specialize (Hmin j c Hj Hlj). by rewrite String.eqb_refl in Hmin.
  - apply index_of_absent in Hi.
    destruct (find_index labels rest) as [i|].
    + destruct IH as (before & c' & after & -> & Hb & Hc & Hmin).
      exists (c :: before), c', after. repeat split; auto.
    + by constructor.
Qed.

Section RowsKept.
Variables (units : list string) (quantity : string) (data_index : nat).
Variables (energy_index kt_index err_index err_plus err_minus : option nat).

Local Abbreviation row1 :=
  (extract_row units quantity data_index energy_index kt_index err_index err_plus err_minus).
Local Abbreviation rows1 :=
  (extract_rows units quantity data_index energy_index kt_index err_index err_plus err_minus).

(** A row gives a point exactly when it is a sequence whose value cell
    is there and coerces to a float. *)
Lemma extract_row_usable k row o :
  row1 k row = Ok o ->
  (is_Some o <->
   ∃ cells cell v, row = RowSeq cells ∧ cells !! data_index = Some cell ∧
                   to_num cell = Ok (Some v)).
Proof.
  intros H. split.
  - intros [p ->]. apply extract_row_Some in H as (cells & cell & _ & -> & Hc & Hv & _).
    by exists cells, cell, (value p).
  - intros (cells & cell & v & -> & Hc & Hv). simpl in H.
    unfold row_value in H. rewrite Hc, Hv in H. simpl in H.
    inv_bind H. destruct a as [e kt]. inv_bind H. inversion H. eauto.
Qed.

Lemma extract_rows_each l : ∀ start pts,
  rows1 (enumerate start l) = Ok pts ->
  ∀ i row, l !! i = Some row ->
    ∃ o, row1 (start + Z.of_nat i) row = Ok o ∧ (∀ p, o = Some p -> p ∈ pts).
Proof.
  induction l as [|row0 rest IH]; intros start pts H i row Hi; [by destruct i|].
  simpl in H. inv_bind H. inv_bind H. inversion H; subst; clear H.
  destruct i as [|i]; simpl in Hi.
  - inversion Hi; subst. exists a. replace (start + Z.of_nat 0) with start by lia.
    split; [done|]. intros p ->. by left.
  - destruct (IH _ _ Ha0 i row Hi) as (o & Ho & Hin). exists o.
    replace (start + Z.of_nat (S i)) with (start + 1 + Z.of_nat i) by lia.
    split; [done|]. intros p Hp. specialize (Hin p Hp).
    destruct a; [by right|done].
Qed.

Lemma extract_rows_app l1 l2 : ∀ start pts,
  rows1 (enumerate start (l1 ++ l2)) = Ok pts ->
  ∃ pts1 pts2, rows1 (enumerate start l1) = Ok pts1 ∧ pts = (pts1 ++ pts2)%list.
Proof.
  induction l1 as [|row rest IH]; intros start pts H; simpl in *.
  - by exists [], pts.
  - inv_bind H. inv_bind H. inversion H; subst; clear H.
    destruct (IH _ _ Ha0) as (p1 & p2 & Hp1 & ->).
    rewrite Ha, Hp1. simpl. destruct a; eauto.
Qed.
End RowsKept.

(** With a value column, [extract_points] is the loop over the rows. *)
Lemma extract_points_rows ds quantity max_points column :
  resolve_data_index (upper_items (ds_labels ds)) = Some column ->
  extract_points ds quantity max_points =
    let labels := upper_items (ds_labels ds) in
    extract_rows (upper_items (ds_units ds)) quantity column
      (find_index labels ["EN"; "ENERGY"; "EN-LAB"; "EN-CM"; "EN-RSL"; "E"])
      (find_index labels ["KT"; "KT-K"; "K-T"])
      (find_index labels ["DATA-ERR"; "D(DATA)"; "ERR"; "ERR-T"; "STAT-W G"])
      (find_index labels ["+DATA-ERR"])
      (find_index labels ["-DATA-ERR"])
      (enumerate 0 (visited_rows ds max_points)).
Proof.
  intros Hcol. unfold extract_points.
  destruct (upper_items (ds_labels ds)) as [|l0 ls] eqn:Hl; [discriminate|].
  by rewrite Hcol.
Qed.

(** X8. No usable row is dropped and no other row gives a point: among
    the rows visited, the one at position [k] has a point, with index
    [k], exactly when it is a list or tuple whose cell in the value
    column exists and coerces to a float. *)
Theorem usable_rows_give_points ds quantity max_points pts column :
  extract_points ds quantity max_points = Ok pts ->
  resolve_data_index (upper_items (ds_labels ds)) = Some column ->
  ∀ k row, visited_rows ds max_points !! k = Some row ->
    ((∃ p, p ∈ pts ∧ point_index p = Z.of_nat k) <->
     (∃ cells cell v, row = RowSeq cells ∧ cells !! column = Some cell ∧
                      to_num cell = Ok (Some v))).
Proof.
  intros H Hcol k row Hrow. split.
  - intros (p & Hp & Hk).
    destruct (extract_points_point _ _ _ _ _ H Hp) as (di & row' & Hdi & _ & Hrow' & Hx).
    simpl in Hdi. assert (di = column) as -> by congruence.
    rewrite Hk, Nat2Z.id, Hrow in Hrow'. inversion Hrow'; subst row'.
    apply extract_row_Some in Hx as (cells & cell & _ & -> & Hc & Hv & _).
    by exists cells, cell, (value p).
  - intros Huse. rewrite (extract_points_rows _ _ _ _ Hcol) in H. simpl in H.
    destruct (extract_rows_each _ _ _ _ _ _ _ _ _ _ _ H k row Hrow) as (o & Ho & Hin).
    destruct (proj2 (extract_row_usable _ _ _ _ _ _ _ _ _ _ _ Ho) Huse) as [p Hp].
    subst o. exists p. split; [by apply Hin|].
    apply extract_row_Some in Ho as (_ & _ & _ & _ & _ & _ & Hk & _). lia.
Qed.

Lemma usable_rows_give_points_witness :
  ∃ pts, extract_points sample_dataset "SIG" 5000 = Ok pts ∧
         map point_index pts = [0; 2] ∧
         ((∃ p, p ∈ pts ∧ point_index p = Z.of_nat 1) <->
          (∃ cells cell v, RowSeq [PyFloat f_2_0; PyNone; PyStr "0.1"] = RowSeq cells ∧
                           cells !! 1%nat = Some cell ∧ to_num cell = Ok (Some v))).
Proof.
  eexists. split; [vm_compute; reflexivity|]. split; [reflexivity|].
  apply (usable_rows_give_points sample_dataset "SIG" 5000 _ 1%nat);
    [vm_compute; reflexivity|vm_compute; reflexivity|reflexivity].
Defined.

Lemma slice_to_split {A} (l : list A) m1 m2 :
  0 <= m1 -> m1 <= m2 ->
  ∃ rest, slice_to l m2 = (slice_to l m1 ++ rest)%list.
Proof.
  intros H1 H2. unfold slice_to.
  destruct (Z.leb_spec 0 m1); [|lia]. destruct (Z.leb_spec 0 m2); [|lia].
  exists (drop (Z.to_nat m1) (take (Z.to_nat m2) l)).
  rewrite <- (take_drop (Z.to_nat m1) (take (Z.to_nat m2) l)) at 1.
  f_equal. rewrite take_take. f_equal. lia.
Qed.

(** X9. Raising the maximum point count only appends points: when the
    call with the larger count returns, the call with the smaller one
    returns a prefix of its list. *)
Theorem smaller_maximum_gives_prefix ds quantity m1 m2 pts2 :
  0 <= m1 -> m1 <= m2 ->
  extract_points ds quantity m2 = Ok pts2 ->
  ∃ pts1 rest, extract_points ds quantity m1 = Ok pts1 ∧ pts2 = (pts1 ++ rest)%list.
Proof.
  intros H1 H2 H.
  destruct (resolve_data_index (upper_items (ds_labels ds))) as [column|] eqn:Hcol.
  - rewrite (extract_points_rows ds quantity m2 column Hcol) in H.
    rewrite (extract_points_rows ds quantity m1 column Hcol). cbv zeta in H |- *.
    destruct (slice_to_split (ds_data ds) m1 m2 H1 H2) as [rest Hrest].
    unfold visited_rows in *. rewrite Hrest in H.
    by apply extract_rows_app in H.
  - exists [], pts2. split; [|done].
    unfold extract_points. rewrite Hcol. by destruct (upper_items (ds_labels ds)).
Qed.

Lemma smaller_maximum_gives_prefix_witness :
  ∃ pts2 pts1 rest,
    extract_points sample_dataset "SIG" 3 = Ok pts2 ∧
    extract_points sample_dataset "SIG" 1 = Ok pts1 ∧
    length pts1 = 1%nat ∧ length pts2 = 2%nat ∧ pts2 = (pts1 ++ rest)%list.
Proof.
  destruct (smaller_maximum_gives_prefix sample_dataset "SIG" 1 3 _
              ltac:(lia) ltac:(lia) ltac:(vm_compute; reflexivity))
    as (pts1 & rest & H1 & H2).
  eexists _, pts1, rest. split; [vm_compute; reflexivity|]. split; [exact H1|].
  vm_compute in H1. inversion H1; subst pts1. split; [reflexivity|].
  split; [reflexivity|exact H2].
Defined.

(* ===================================================================== *)
(** ** Further properties: the fields of a point                          *)
(* ===================================================================== *)

Lemma sign_is_not_nan s x : sign_is s x -> isnan x = false.
Proof. by destruct x. Qed.

Lemma mul_finite_not_nan x sy my ey :
  is_finite x = true -> isnan (mul x (S754_finite sy my ey)) = false.
Proof.
  destruct x as [sx|sx| |sx mx ex]; simpl; try done. intros _.
  apply (sign_is_not_nan (xorb sx sy)).
  unfold mul, SFmul. apply binary_round_aux_sign. lia.
Qed.

Lemma div_finite_not_nan x sy my ey :
  is_finite x = true -> isnan (div x (S754_finite sy my ey)) = false.
Proof.
  destruct x as [sx|sx| |sx mx ex]; simpl; try done. intros _.
  apply (sign_is_not_nan (xorb sx sy)).
  unfold div, SFdiv.
  destruct (SFdiv_core_binary _ _ _ _ _ _) as [[mz ez] lz] eqn:E.
  apply binary_round_aux_sign.
  unfold SFdiv_core_binary in E.
  destruct (Z.div_eucl _ _) as [q r] eqn:Hd. inversion E; subst; clear E.
  match type of Hd with Z.div_eucl ?a ?b = _ =>
    pose proof (Z_div_mod a b ltac:(lia)) as Hdm; rewrite Hd in Hdm;
    assert (0 <= a) as Ha end.
  { destruct (_ - _ - _) as [|p|p]; simpl; try lia.
    apply Z.shiftl_nonneg. lia. }
  destruct Hdm as [Heq Hr]. nia.
Qed.

Lemma energy_to_ev_not_nan x unit e :
  is_finite x = true -> energy_to_ev (Some x) unit = Some e -> isnan e = false.
Proof.
  intros Hx. unfold energy_to_ev. rewrite factors_table.
  assert (Hx' : isnan x = false) by (unfold is_finite in Hx; by destruct (isnan x)).
  repeat (destruct (String.eqb _ _);
          [intros [= <-]; by apply mul_finite_not_nan|]).
  by intros [= <-].
Qed.

Lemma kt_to_kev_not_nan x unit t :
  is_finite x = true -> kt_to_kev (Some x) unit = Some t -> isnan t = false.
Proof.
  intros Hx. unfold kt_to_kev.
  assert (Hx' : isnan x = false) by (unfold is_finite in Hx; by destruct (isnan x)).
  repeat (destruct (String.eqb _ _);
          [intros [= <-]; first [done|by apply mul_finite_not_nan
                                |by apply div_finite_not_nan]|]).
  by intros [= <-].
Qed.

(** X10. In every returned point the value is a finite float, and the
    energy and the temperature, when they are there, are not NaN. (They
    can be an infinity: the unit factor is applied after the coercion,
    and the product can leave the range of a float.) *)
Theorem point_fields_are_numbers ds quantity max_points pts :
  extract_points ds quantity max_points = Ok pts ->
  Forall (λ p, is_finite (value p) = true ∧
               (∀ e, energy_ev p = Some e -> isnan e = false) ∧
               (∀ t, kt_kev p = Some t -> isnan t = false)) pts.
Proof.
  intros H. rewrite Forall_forall. intros p Hp.
  destruct (extract_points_point _ _ _ _ _ H Hp) as (di & row & _ & _ & _ & Hx).
  apply extract_row_Some in Hx
    as (cells & cell & [e kt] & _ & _ & Hv & _ & Hek & He & Hkt & _).
  simpl in He, Hkt. subst e kt. split; [by eapply to_num_finite|].
  unfold row_energy_kt in Hek.
  destruct (String.eqb quantity "MACS").
  - destruct (find_index _ ["KT"; _; _]) as [k|];
      [|inversion Hek as [[H1 H2]]; split; intros ? ?; congruence].
    destruct (cell_at _ _) as [c|];
      [|inversion Hek as [[H1 H2]]; split; intros ? ?; congruence].
    inv_bind Hek. inversion Hek as [[H1 H2]]; clear Hek.
    split; [intros ? ?; congruence|]. intros t Ht.
    destruct a as [x|]; [|simpl in *; congruence].
    eapply (kt_to_kev_not_nan x); [by eapply to_num_finite|]. rewrite <- Ht. eauto.
  - destruct (find_index _ ["EN"; _; _; _; _; _]) as [k|];
      [|inversion Hek as [[H1 H2]]; split; intros ? ?; congruence].
    destruct (cell_at _ _) as [c|];
      [|inversion Hek as [[H1 H2]]; split; intros ? ?; congruence].
    inv_bind Hek. inversion Hek as [[H1 H2]]; clear Hek.
    split; [|intros ? ?; congruence]. intros e He'.
    destruct a as [x|]; [|simpl in *; congruence].
    eapply (energy_to_ev_not_nan x); [by eapply to_num_finite|]. rewrite <- He'. eauto.
Qed.

Lemma point_fields_are_numbers_witness :
  ∃ pts, extract_points sample_dataset "SIG" 5000 = Ok pts ∧ length pts = 2%nat ∧
    Forall (λ p, is_finite (value p) = true ∧
                 (∀ e, energy_ev p = Some e -> isnan e = false) ∧
                 (∀ t, kt_kev p = Some t -> isnan t = false)) pts.
Proof.
  eexists. split; [vm_compute; reflexivity|]. split; [reflexivity|].
  apply (point_fields_are_numbers sample_dataset "SIG" 5000). vm_compute. reflexivity.
Defined.

(** The energy of a point can be an infinity. *)
Example energy_can_overflow :
  extract_points
    {| ds_labels := [Some "EN"; Some "DATA"]; ds_units := [Some "GEV"; Some "B"];
       ds_data := [RowSeq [PyStr "1e305"; PyStr "1"]] |} "SIG" 10
  = Ok [{| point_index := 0; energy_ev := Some (S754_infinity false); kt_kev := None;
           value := f_1_0; uncertainty := None |}].
Proof. vm_compute. reflexivity. Qed.

(* ===================================================================== *)
(** ** Further properties: pointers, identifiers and the dataset lookup   *)
(* ===================================================================== *)

(** X11. The normalised pointer is never empty: it is the blank, or a
    text without blanks at its ends. No pointer and the empty pointer
    are the blank, and normalising twice is normalising once. *)
Theorem norm_pointer_normal pointer :
  norm_pointer pointer ≠ "" ∧
  (norm_pointer pointer = " " ∨ strip (norm_pointer pointer) = norm_pointer pointer) ∧
  norm_pointer (Some (norm_pointer pointer)) = norm_pointer pointer ∧
  norm_pointer None = " " ∧ norm_pointer (Some "") = " ".
Proof.
  assert (Hblank : norm_pointer (Some " ") = " ") by (by vm_compute).
  assert (Hcases : norm_pointer pointer = " " ∨
                   ∃ q, norm_pointer pointer = strip q ∧ strip q ≠ "").
  { unfold norm_pointer.
    match goal with |- context [strip ?t] => set (q := t) end.
    destruct (String.eqb_spec (strip q) ""); [by left|right; by exists q]. }
  split; [|split; [|split; [|by vm_compute]]].
  - destruct Hcases as [->|(q & -> & Hne)]; done.
  - destruct Hcases as [->|(q & -> & Hne)]; [by left|right; apply strip_idempotent].
  - destruct Hcases as [->|(q & -> & Hne)]; [done|].
    unfold norm_pointer.
    destruct (String.eqb_spec (strip q) "") as [|_]; [done|].
    rewrite strip_idempotent. by destruct (String.eqb_spec (strip q) "").
Qed.

Lemma colon_split_unique a : ∀ b x y,
  no_colon a -> no_colon b -> a ++ ":" ++ x = b ++ ":" ++ y -> a = b ∧ x = y.
Proof.
  unfold no_colon.
  induction a as [|c a IH]; intros [|d b] x y Ha Hb H.
  - rewrite !append_nil_l in H. by inversion H.
  - rewrite append_nil_l, append_cons in H. inversion H; subst.
    rewrite all_chars_cons in Hb. discriminate.
  - rewrite append_nil_l, append_cons in H. inversion H; subst.
    rewrite all_chars_cons in Ha. discriminate.
  - rewrite !append_cons in H. inversion H; subst.
    rewrite all_chars_cons in Ha, Hb.
    apply andb_true_iff in Ha as [_ Ha]. apply andb_true_iff in Hb as [_ Hb].
    destruct (IH b x y Ha Hb) as [-> ->]; done.
Qed.

Lemma no_colon_app a b y : no_colon a -> a ≠ b ++ ":" ++ y.
Proof.
  unfold no_colon. intros Ha ->. rewrite !all_chars_app in Ha.
  apply andb_true_iff in Ha as [_ Ha]. apply andb_true_iff in Ha as [Ha _].
  discriminate.
Qed.

(** X12. On subentries without a colon the derived identifier tells
    apart every two datasets: equal identifiers come from equal
    subentries and equal pointers. (With a colon in a subentry two
    datasets can share an identifier.) *)
Theorem derived_subentry_id_injective sub1 p1 sub2 p2 :
  no_colon sub1 -> no_colon sub2 ->
  derived_subentry_id sub1 p1 = derived_subentry_id sub2 p2 ->
  sub1 = sub2 ∧ p1 = p2.
Proof.
  unfold derived_subentry_id. intros H1 H2.
  destruct (String.eqb_spec p1 " ") as [->|Hp1], (String.eqb_spec p2 " ") as [->|Hp2].
  - done.
  - intros H. by apply no_colon_app in H.
  - intros H. symmetry in H. by apply no_colon_app in H.
  - by apply colon_split_unique.
Qed.

Lemma derived_subentry_id_injective_witness :
  derived_subentry_id "10001002" "1" = "10001002:1" ∧
  ("10001002" = "10001002" ∧ "1" = "1").
Proof.
  split; [reflexivity|].
  apply (derived_subentry_id_injective "10001002" "1" "10001002" "1");
    reflexivity.
Defined.

Example derived_subentry_id_collision :
  derived_subentry_id "1:2" " " = derived_subentry_id "1" "2".
Proof. reflexivity. Qed.

(** X13. With a limit of at least zero the recorded number of candidate
    rows is the number of rows the build reads: all candidates for the
    limit 0, the first [limit] of them otherwise. A negative limit
    reads all candidates and records the limit itself. *)
Theorem candidate_rows_match_query candidates a :
  (0 <= limit a ->
   candidate_rows_text candidates a
     = str_of_int (Z.of_nat (length (query_rows candidates a)))) ∧
  (limit a <= 0 -> query_rows candidates a = candidates) ∧
  (0 < limit a -> query_rows candidates a = take (Z.to_nat (limit a)) candidates) ∧
  (limit a < 0 -> candidate_rows_text candidates a = str_of_int (limit a)).
Proof.
  unfold candidate_rows_text, query_rows. repeat split.
  - intros H. destruct (Z.eqb_spec (limit a) 0) as [->|Hne]; [done|].
    destruct (Z.ltb_spec 0 (limit a)); [|lia]. f_equal.
    rewrite length_take. lia.
  - intros H. by destruct (Z.ltb_spec 0 (limit a)); [lia|].
  - intros H. by destruct (Z.ltb_spec 0 (limit a)); [|lia].
  - intros H. destruct (Z.eqb_spec (limit a) 0); [lia|]. f_equal. lia.
Qed.

Abbreviation key_subent := (λ key : dataset_key, key.1.2).

Lemma by_subent_fold (keys : list dataset_key) : ∀ (m : gmap string (list dataset_key)) sub,
  fold_left (λ m key, <[key_subent key := (default [] (m !! key_subent key) ++ [key])%list]> m)
            keys m !! sub =
  match filter (λ key, key_subent key = sub) keys with
  | [] => m !! sub
  | l => Some (default [] (m !! sub) ++ l)%list
  end.
Proof.
  induction keys as [|key rest IH]; intros m sub; simpl; [done|].
  rewrite IH. rewrite filter_cons. destruct (decide (key_subent key = sub)) as [<-|Hne].
  - rewrite lookup_insert_eq. simpl.
    destruct (filter _ rest); [done|]. by rewrite <- app_assoc.
  - by rewrite lookup_insert_ne.
Qed.

Lemma first_of_subent (dataset_map : list (dataset_key * dataset)) sub :
  match filter (λ key, key_subent key = sub) (map fst dataset_map) with
  | first :: _ => dict_get dataset_map first
  | [] => None
  end = snd <$> List.find (λ kv, bool_decide (key_subent kv.1 = sub)) dataset_map.
Proof.
  induction dataset_map as [|[k d] rest IH]; simpl; [done|].
  rewrite filter_cons. simpl. destruct (decide (key_subent k = sub)) as [Hk|Hk].
  - rewrite bool_decide_true by done. unfold dict_get. simpl.
    by rewrite bool_decide_true.
  - rewrite bool_decide_false by done. rewrite <- IH.
    destruct (filter _ (map fst rest)) as [|k0 l] eqn:Hf; [done|].
    assert (Hk0 : key_subent k0 = sub).
    { assert (Hin : k0 ∈ filter (λ key, key_subent key = sub) (map fst rest))
        by (rewrite Hf; by left).
      by apply list_elem_of_filter in Hin as [? _]. }
    unfold dict_get. simpl. rewrite bool_decide_false; [done|]. congruence.
Qed.

(** X14. The dataset of a row is the one stored under its exact key
    when there is one; otherwise it is the first dataset, in the order
    of the keys, whose key has the subentry of the row; and there is
    none exactly when neither exists. *)
Theorem find_dataset_falls_back dataset_map key subent :
  find_dataset dataset_map key subent =
    match dict_get dataset_map key with
    | Some dataset => Some dataset
    | None => snd <$> List.find (λ kv, bool_decide (kv.1.1.2 = subent)) dataset_map
    end.
Proof.
  unfold find_dataset. destruct (dict_get dataset_map key); [done|].
  rewrite <- first_of_subent. unfold by_subent. rewrite by_subent_fold.
  rewrite lookup_empty. simpl. by destruct (filter _ _).
Qed.

(* ===================================================================== *)
(** ** Further properties: what a build that ends well has published      *)
(* ===================================================================== *)

Lemma tick_stats st st' r : tick st = (st', r) -> stats st' = stats st.
Proof. unfold tick. destruct (steps_left st); by intros [= <- _]. Qed.

Lemma db_exec_stats path stmt st st' r :
  db_exec path stmt st = (st', r) -> stats st' = stats st.
Proof.
  unfold db_exec. intros H.
  apply bindM_inv in H as [([] & st1 & Ht & H)|(? & Ht & ?)];
    [|by eapply tick_stats].
  rewrite <- (tick_stats _ _ _ Ht).
  apply bindM_inv in H as [(f & st2 & Hg & H)|(? & Hg & ?)]; [|inversion Hg].
  inversion Hg; subst; clear Hg.
  destruct (files st2 !! path) as [[s|]|]; try (by inversion H).
  apply bindM_inv in H as [(s' & st3 & Hl & H)|(? & Hl & ?)].
  - inversion Hl; subst. by inversion H.
  - by inversion Hl.
Qed.

Lemma connect_Ok a st st' :
  connect (tmp_output a) st = (st', Ok ()) ->
  stats st' = stats st ∧ written_entries st' = written_entries st ∧
  (is_Some (files st !! tmp_output a) ∧ tmp_store a st' = tmp_store a st ∨
   files st !! tmp_output a = None ∧ tmp_store a st' = Some empty_store).
Proof.
  unfold connect. intros H.
  apply bindM_inv in H as [([] & st1 & Ht & H)|(? & ? & ?)]; [|discriminate].
  pose proof (tick_stats _ _ _ Ht) as Hs. pose proof (tick_written _ _ _ Ht) as Hw.
  pose proof (tick_files _ _ _ Ht) as Hf.
  apply bindM_inv in H as [(f & st2 & Hg & H)|(? & ? & ?)]; [|discriminate].
  inversion Hg; subst; clear Hg. unfold tmp_store. rewrite <- Hf.
  destruct (files st2 !! tmp_output a) as [f|] eqn:Hfile.
  - inversion H; subst. rewrite Hfile. split; [done|]. split; [done|]. left. eauto.
  - inversion H; subst. simpl. rewrite lookup_insert_eq. auto.
Qed.

Lemma db_close_tmp_store a st st' :
  db_close (tmp_output a) st = (st', Ok ()) ->
  tmp_store a st' = tmp_store a st ∧ stats st' = stats st.
Proof.
  intros H. pose proof (db_close_Ok _ _ _ H) as Hf. unfold tmp_store. rewrite Hf.
  rewrite lookup_delete_ne by apply shm_ne. rewrite lookup_delete_ne by apply wal_ne.
  split; [done|]. unfold db_close in H.
  apply bindM_inv in H as [([] & st1 & Ht & H)|(? & ? & ?)]; [|discriminate].
  inversion H; subst. simpl. by eapply tick_stats.
Qed.

Lemma os_replace_Ok a st st' :
  os_replace (tmp_output a) (output a) st = (st', Ok ()) ->
  stats st' = stats st ∧
  ∀ s, tmp_store a st = Some s -> files st' !! output a = Some (StoreFile s).
Proof.
  unfold os_replace. intros H.
  apply bindM_inv in H as [([] & st1 & Ht & H)|(? & ? & ?)]; [|discriminate].
  pose proof (tick_stats _ _ _ Ht) as Hs. pose proof (tick_files _ _ _ Ht) as Hf.
  apply bindM_inv in H as [(f & st2 & Hg & H)|(? & ? & ?)]; [|discriminate].
  inversion Hg; subst; clear Hg. unfold tmp_store. rewrite <- Hf.
  destruct (files st2 !! tmp_output a) as [f|]; [|discriminate].
  inversion H; subst. simpl. split; [done|]. intros s Hfs.
  rewrite lookup_insert_eq. by destruct f; inversion Hfs.
Qed.

(** A run of [main] that ends well, taken apart: the store the loop
    started on, the loop, and the store at the destination. *)
Lemma main_Ok_parts retrieve candidates now a st st' :
  main retrieve candidates now a st = (st', Ok ()) ->
  ∃ s0 st_a st_b s_b,
    (files st !! tmp_output a = None ∧ s0 = empty_store ∨
     files st !! tmp_output a = Some (StoreFile s0)) ∧
    tmp_store a st_a = Some s0 ∧ written_entries st_a = ∅ ∧ stats st_a = ∅ ∧
    build_rows retrieve a (query_rows candidates a) st_a = (st_b, Ok ()) ∧
    tmp_store a st_b = Some s_b ∧
    stats st' = stats st_b ∧
    files st' !! output a =
      Some (StoreFile {| exfor_meta := with_meta candidates now a (exfor_meta s_b);
                         exfor_entries := exfor_entries s_b;
                         exfor_points := exfor_points s_b |}).
Proof.
  unfold main. intros H.
  apply bindM_inv in H as [([] & st9 & Hb & Hr)|(? & ? & ?)]; [|discriminate].
  unfold build_tmp, db_commit in Hb.
  apply bindM_inv in Hb as [([] & st1 & H1 & Hb)|(? & ? & ?)]; [|discriminate].
  apply bindM_inv in Hb as [([] & st2 & H2 & Hb)|(? & ? & ?)]; [|discriminate].
  apply bindM_inv in Hb as [([] & st3 & H3 & Hb)|(? & ? & ?)]; [|discriminate].
  apply bindM_inv in Hb as [([] & st4 & H4 & Hb)|(? & ? & ?)]; [|discriminate].
  apply bindM_inv in Hb as [([] & st5 & H5 & Hb)|(? & ? & ?)]; [|discriminate].
  apply bindM_inv in Hb as [([] & st6 & H6 & Hb)|(? & ? & ?)]; [|discriminate].
  apply bindM_inv in Hb as [([] & st7 & H7 & Hb)|(? & ? & ?)]; [|discriminate].
  apply bindM_inv in Hb as [([] & st8 & H8 & Hb)|(? & ? & ?)]; [|discriminate].
  apply bindM_inv in Hb as [([] & st8' & H8' & Hb)|(? & ? & ?)]; [|discriminate].
  (* the connection and the script *)
  destruct (connect_Ok _ _ _ H1) as (_ & _ & Hc).
  destruct (tmp_store_db_exec _ _ _ _ H2) as (s0 & s0' & Hs1 & Hok & Hs2 & _).
  inversion Hok; subst s0'; clear Hok.
  assert (files st3 = files st2 ∧ written_entries st3 = ∅ ∧ stats st3 = ∅)
    as (Hf3 & Hw3 & Hst3) by (by inversion H3).
  (* the rows of the meta table *)
  destruct (tmp_store_db_exec _ _ _ _ H5) as (s_b & s5 & Hsb & Hm5 & Hs5 & _).
  destruct (tmp_store_db_exec _ _ _ _ H6) as (s5' & s6 & Hs5' & Hm6 & Hs6 & _).
  destruct (tmp_store_db_exec _ _ _ _ H7) as (s6' & s7 & Hs6' & Hm7 & Hs7 & _).
  destruct (tmp_store_db_exec _ _ _ _ H8) as (s7' & s8 & Hs7' & Hm8 & Hs8 & _).
  destruct (tmp_store_db_exec _ _ _ _ H8') as (s8' & s8'' & Hs8' & Hm8' & Hs8'' & _).
  assert (s5' = s5) as -> by congruence. assert (s6' = s6) as -> by congruence.
  assert (s7' = s7) as -> by congruence. assert (s8' = s8) as -> by congruence.
  inversion Hm5; subst s5. inversion Hm6; subst s6. inversion Hm7; subst s7.
  inversion Hm8; subst s8. inversion Hm8'; subst s8''. simpl in *.
  destruct (db_close_tmp_store _ _ _ Hb) as [Hs9 Hst9].
  destruct (os_replace_Ok _ _ _ Hr) as [Hst' Hout].
  exists s0, st3, st4, s_b. split; [|split; [|split; [|split; [|split]]]].
  - destruct Hc as [[_ Hc]|[Hnone Hc]].
    + right. unfold tmp_store in Hc, Hs1. rewrite Hc in Hs1.
      destruct (files st !! tmp_output a) as [[s|]|]; by inversion Hs1.
    + left. split; [done|]. congruence.
  - unfold tmp_store in *. rewrite Hf3. exact Hs2.
  - done.
  - done.
  - exact H4.
  - split; [done|]. split.
    + rewrite Hst', Hst9.
      rewrite (db_exec_stats _ _ _ _ _ H8'), (db_exec_stats _ _ _ _ _ H8),
        (db_exec_stats _ _ _ _ _ H7), (db_exec_stats _ _ _ _ _ H6),
        (db_exec_stats _ _ _ _ _ H5). done.
    + apply Hout. rewrite Hs9. exact Hs8''.
Qed.





(* ===================================================================== *)
(** ** Further properties: the counters of a build                        *)
(* ===================================================================== *)

Lemma counter_bump name n name' st st' :
  bump name n st = (st', Ok ()) ->
  files st' = files st ∧
  counter name' st' = if decide (name = name') then counter name' st + n else counter name' st.
Proof.
  intros [= <-]. split; [done|]. unfold counter. simpl.
  destruct (decide (name = name')) as [->|Hne].
  - by rewrite lookup_insert_eq.
  - by rewrite lookup_insert_ne.
Qed.

Lemma counter_stats name st st' : stats st' = stats st -> counter name st' = counter name st.
Proof. unfold counter. by intros ->. Qed.


(** The reasons a row is dropped for. *)
Lemma resolve_row_skip a dataset_map row c :
  resolve_row a dataset_map row = Ok (Skip c) ->
  c ∈ ["skipped_non_nuclide_or_quantity"; "skipped_projectile";
       "missing_dataset"; "empty_points"].
Proof.
  unfold resolve_row. intros H.
  destruct (parse_target _) as [[[z m] state_]|]; [|inversion H; set_solver].
  destruct (negb _); [inversion H; set_solver|].
  destruct (PROJECTILE_MAP !! _); [|inversion H; set_solver].
  destruct (find_dataset _ _ _); [|inversion H; set_solver].
  apply bind_Ok in H as (points & _ & H).
  destruct points; inversion H. set_solver.
Qed.

Section ScanRelation.
Variable retrieve : option string -> loaded.
Variable a : args.
(** [R rows st st']: what the flush of [rows] does from [st] to [st']. *)
Variable R : list index_row -> run_state -> run_state -> Prop.
Hypothesis R_nil : ∀ st, R [] st st.
Hypothesis R_app : ∀ l1 l2 st st1 st2, R l1 st st1 -> R l2 st1 st2 -> R (l1 ++ l2) st st2.
Hypothesis R_commit : ∀ st st',
  db_commit (tmp_output a) st = (st', Ok ()) -> R [] st st'.
Hypothesis R_flush : ∀ entry rows st st',
  flush_entry retrieve a entry rows st = (st', Ok ()) -> one_entry entry rows ->
  R rows st st'.

Lemma scan_related rows : ∀ current_entry entry_rows row_index st st' cur' rows',
  scan retrieve a current_entry entry_rows row_index rows st = (st', Ok (cur', rows')) ->
  one_entry current_entry entry_rows ->
  ∃ flushed, (entry_rows ++ rows = flushed ++ rows')%list ∧ one_entry cur' rows' ∧
             R flushed st st'.
Proof.
  induction rows as [|row rest IH]; intros cur pending idx st st' cur' rows' H Hone.
  - inversion H; subst; clear H. exists []. rewrite app_nil_r. simpl. auto.
  - simpl in H.
    apply bindM_inv in H as [([cur2 pending2] & st1 & H1 & H)|(? & ? & ?)]; [|discriminate].
    apply bindM_inv in H as [([] & st2 & H2 & H)|(? & ? & ?)]; [|discriminate].
    assert (∃ l1, (pending ++ [row] = l1 ++ pending2)%list ∧ one_entry cur2 pending2 ∧
              R l1 st st1) as (l1 & Hl1 & Hone2 & HR1).
    { case_bool_decide as Hchange.
      - apply bindM_inv in H1 as [([] & st0 & Hfl & H1)|(? & ? & ?)]; [|discriminate].
        inversion H1; subst; clear H1.
        assert (Hcur : one_entry
                  match cur with Some _ => cur | None => Some (ix_entry row) end pending).
        { intros r Hr. rewrite (Hone r Hr). done. }
        exists pending. split; [done|]. split; [|by eapply R_flush].
        intros r Hr. apply list_elem_of_singleton in Hr. by subst.
      - inversion H1; subst; clear H1. exists []. simpl.
        split; [done|]. split; [|done].
        intros r Hr. apply elem_of_app in Hr as [Hr|Hr].
        + by rewrite (Hone r Hr).
        + apply list_elem_of_singleton in Hr. subst r.
          destruct (decide (Some (ix_entry row) =
                      match cur with Some _ => cur | None => Some (ix_entry row) end));
            [congruence|done]. }
    assert (R [] st1 st2) as HR2.
    { destruct (_ =? _); [by apply R_commit|]. inversion H2; subst. apply R_nil. }
    destruct (IH _ _ _ _ _ _ _ H Hone2) as (l3 & Hl3 & Hone' & HR3).
    exists (l1 ++ l3)%list. split; [|split; [done|]].
    + rewrite <- app_assoc, <- Hl3, app_assoc, <- Hl1, <- app_assoc. done.
    + eapply R_app; [exact HR1|]. eapply (R_app []); [exact HR2|exact HR3].
Qed.

Lemma build_rows_related rows st st' :
  build_rows retrieve a rows st = (st', Ok ()) -> R rows st st'.
Proof.
  unfold build_rows. intros H.
  apply bindM_inv in H as [([cur pending] & st1 & H1 & H)|(? & ? & ?)]; [|discriminate].
  assert (Hnone : one_entry None []) by (intros r Hr; by apply elem_of_nil in Hr).
  destruct (scan_related _ _ _ _ _ _ _ _ H1 Hnone) as (flushed & Hrows & Hone & HR1).
  simpl in Hrows. rewrite Hrows. eapply R_app; [exact HR1|]. by eapply R_flush.
Qed.
End ScanRelation.

(** *** The counters of the two tables *)

Lemma counted_same a e0 p0 st st' :
  files st' = files st -> stats st' = stats st -> counted a e0 p0 st -> counted a e0 p0 st'.
Proof.
  intros Hf Hst (s & Hs & He & Hp). exists s. unfold tmp_store, counter in *.
  by rewrite Hf, Hst.
Qed.







(** *** The counters of the rows that are dropped *)

Lemma filter_none {A} (f : A -> bool) (l : list A) :
  (∀ x, x ∈ l -> f x = false) -> List.filter f l = [].
Proof.
  induction l as [|x rest IH]; intros H; [done|]. simpl.
  rewrite (H x) by (by left). apply IH. intros y Hy. apply H. by right.
Qed.

Lemma filter_agree {A} (f g : A -> bool) (l : list A) :
  (∀ x, x ∈ l -> f x = g x) -> List.filter f l = List.filter g l.
Proof.
  induction l as [|x rest IH]; intros H; [done|]. simpl.
  rewrite (H x) by (by left). rewrite IH; [done|]. intros y Hy. apply H. by right.
Qed.

Lemma filter_length_cons {A} (f : A -> bool) x (l : list A) :
  Z.of_nat (length (List.filter f (x :: l)))
  = (if f x then 1 else 0) + Z.of_nat (length (List.filter f l)).
Proof. simpl. destruct (f x); simpl; lia. Qed.

Lemma process_row_skips a name dataset_map row st st' :
  name ∉ other_counters ->
  process_row a dataset_map row st = (st', Ok ()) ->
  counter name st' = counter name st +
    match resolve_row a dataset_map row with
    | Ok (Skip c) => if String.eqb c name then 1 else 0
    | _ => 0
    end.
Proof.
  unfold process_row. intros Hname H.
  apply bindM_inv in H as [(outcome & st0 & Hl & H)|(? & ? & ?)]; [|discriminate].
  inversion Hl as [[E Hres]]; subst st0; clear Hl. rewrite Hres.
  destruct outcome as [c|e points].
  { destruct (counter_bump _ _ name _ _ H) as [_ Hc]. rewrite Hc.
    destruct (decide (c = name)) as [->|Hne].
    - by rewrite String.eqb_refl.
    - apply String.eqb_neq in Hne. rewrite Hne. lia. }
  apply bindM_inv in H as [(seen & st0 & Hs & H)|(? & ? & ?)]; [|discriminate].
  inversion Hs; subst st0 seen; clear Hs.
  case_bool_decide as Hkey; [inversion H; subst; lia|].
  apply bindM_inv in H as [([] & st1 & H1 & H)|(? & ? & ?)]; [|discriminate].
  apply bindM_inv in H as [([] & st2 & H2 & H)|(? & ? & ?)]; [|discriminate].
  apply bindM_inv in H as [([] & st3 & H3 & H)|(? & ? & ?)]; [|discriminate].
  apply bindM_inv in H as [([] & st4 & H4 & H)|(? & ? & ?)]; [|discriminate].
  pose proof (db_exec_stats _ _ _ _ _ H1) as Hst1.
  pose proof (db_exec_stats _ _ _ _ _ H2) as Hst2.
  assert (stats st3 = stats st2) as Hst3 by (by inversion H3).
  destruct (counter_bump _ _ name _ _ H4) as [_ Hc4].
  destruct (counter_bump _ _ name _ _ H) as [_ Hc5].
  rewrite decide_False in Hc4 by (intros <-; apply Hname; set_solver).
  rewrite decide_False in Hc5 by (intros <-; apply Hname; set_solver).
  rewrite Hc5, Hc4, (counter_stats _ st st3) by congruence. lia.
Qed.

Lemma build_rows_skips retrieve a name rows st st' :
  name ∉ other_counters ->
  build_rows retrieve a rows st = (st', Ok ()) ->
  counter name st' =
    counter name st + Z.of_nat (length (List.filter (skips_as retrieve a name) rows)).
Proof.
  intros Hname H.
  apply (build_rows_related retrieve a
           (λ l st st', counter name st' =
              counter name st + Z.of_nat (length (List.filter (skips_as retrieve a name) l))))
    in H; auto.
  - intros st1. simpl. lia.
  - intros l1 l2 st0 st1 st2 H1 H2. rewrite List.filter_app, length_app. lia.
  - intros st1 st2 Hc. unfold db_commit in Hc. apply db_exec_stats in Hc.
    rewrite (counter_stats _ _ _ Hc). simpl. lia.
  - intros entry l st1 st2 Hfl Hone. unfold flush_entry in Hfl.
    destruct l as [|row0 rest] eqn:Hl; [inversion Hfl; subst; simpl; lia|].
    rewrite <- Hl in *. clear Hl.
    destruct (retrieve entry) as [| |dataset_map] eqn:Hr.
    + destruct (counter_bump _ _ name _ _ Hfl) as [_ Hc].
      rewrite decide_False in Hc by (intros <-; apply Hname; set_solver).
      rewrite filter_none; [simpl; lia|].
      intros row Hrow. unfold skips_as. by rewrite <- (Hone row), Hr.
    + destruct (counter_bump _ _ name _ _ Hfl) as [_ Hc].
      rewrite decide_False in Hc by (intros <-; apply Hname; set_solver).
      rewrite filter_none; [simpl; lia|].
      intros row Hrow. unfold skips_as. by rewrite <- (Hone row), Hr.
    + rewrite (filter_agree _ (λ row, match resolve_row a dataset_map row with
                                      | Ok (Skip c) => String.eqb c name
                                      | _ => false
                                      end)).
      2:{ intros row Hrow. unfold skips_as. by rewrite <- (Hone row), Hr. }
      clear Hone Hr. revert st1 Hfl.
      induction l as [|row rest' IH]; intros st1 Hfl.
      * inversion Hfl; subst. change (List.filter _ []) with (@nil index_row).
        change (Z.of_nat (length (@nil index_row))) with 0. lia.
      * change (for_each ?b (row :: rest')) with (_ ← b row; for_each b rest') in Hfl.
        apply bindM_inv in Hfl as [([] & st0 & H1 & Hfl)|(? & ? & ?)]; [|discriminate].
        rewrite filter_length_cons, (IH _ Hfl), (process_row_skips _ _ _ _ _ _ Hname H1).
        cbv beta.
        destruct (resolve_row a dataset_map row) as [[c|e points]|e]; lia.
Qed.

(** X18. A build that ends well has counted every dropped row once,
    under its reason: each of the counters
    [skipped_non_nuclide_or_quantity], [skipped_projectile],
    [missing_dataset] and [empty_points] is the number of rows of the
    query, of entries that were loaded, that were dropped for that
    reason; a row is dropped for one of these four reasons only, and the
    rows of an entry that was not loaded are in none of these
    counters. *)
Theorem main_counts_dropped_rows retrieve candidates now a st st' :
  main retrieve candidates now a st = (st', Ok ()) ->
  (∀ name, name ∉ other_counters ->
     counter name st' =
       Z.of_nat (length (List.filter (skips_as retrieve a name) (query_rows candidates a)))) ∧
  (∀ dataset_map row c,
     resolve_row a dataset_map row = Ok (Skip c) ->
     c ∈ ["skipped_non_nuclide_or_quantity"; "skipped_projectile";
          "missing_dataset"; "empty_points"]) ∧
  (∀ name row,
     skips_as retrieve a name row = true ->
     ∃ dataset_map, retrieve (Some (ix_entry row)) = Datasets dataset_map).
Proof.
  intros H. split; [|split].
  - intros name Hname.
    apply main_Ok_parts in H
      as (s0 & st_a & st_b & s_b & _ & _ & _ & Hst & Hrows & _ & Hst' & _).
    rewrite (counter_stats _ _ _ Hst'), (build_rows_skips _ _ _ _ _ _ Hname Hrows).
    unfold counter at 1. rewrite Hst, lookup_empty. simpl. lia.
  - intros dataset_map row c. apply resolve_row_skip.
  - intros name row. unfold skips_as.
    destruct (retrieve (Some (ix_entry row))); try discriminate. eauto.
Qed.

Lemma main_counts_dropped_rows_witness :
  ∃ st',
    main sample_retrieve sample_index "2026-01-01 00:00:00" sample_args (sample_state 100)
      = (st', Ok ()) ∧
    counter "empty_points" st' = 0 ∧ counter "missing_entries" st' = 1.
Proof.
  eexists. split; [vm_compute; reflexivity|]. split; [|vm_compute; reflexivity].
  etransitivity;
    [refine (proj1 (main_counts_dropped_rows sample_retrieve sample_index
                      "2026-01-01 00:00:00" sample_args (sample_state 100) _ _)
               "empty_points" _)
    |vm_compute; reflexivity].
  - vm_compute. reflexivity.
  - intros Hin. repeat (apply elem_of_cons in Hin as [Hin|Hin]; [discriminate|]).
    by apply elem_of_nil in Hin.
Defined.

(* ===================================================================== *)
(** ** Further properties: how a build can fail                           *)
(* ===================================================================== *)















Section Failures.
Variable retrieve : option string -> loaded.
Variable a : args.











End Failures.



(** The temporary path has to be free: a store that an earlier run left
    there, with the record of a pair this run resolves, makes the
    insertion of that record fail. *)
Example stale_store_breaks_key :
  match row_resolution sample_retrieve sample_args
          (sample_row "10001" "10001002" None "26-FE-56(N,TOT),,SIG" "A.Author") with
  | Some (e, _) =>
      (main sample_retrieve sample_index "2026-01-01 00:00:00" sample_args
         {| files := {[ "exfor.sqlite.tmp.build" :=
                          StoreFile {| exfor_meta := ∅; exfor_entries := [e];
                                       exfor_points := [] |} ]};
            written_entries := ∅; stats := ∅; steps_left := 100 |}).2
      = Raise IntegrityError
  | None => False
  end.
Proof. vm_compute. reflexivity. Qed.

(* ===================================================================== *)
(** ** Further properties: the shape of the published tables              *)
(* ===================================================================== *)










